(** * EnGeL protobiogenesis core: a shallow embedding of [biogenesis_core.py]

    The development follows the Python module function by function, in
    two layers.

    The exact layer.  Python [float] values are embedded as exact
    rationals ([Q]): every arithmetic expression of the source is kept,
    operator by operator, but it is evaluated without rounding, and a
    rational is always finite.  Where the source would produce NaN
    ([np.mean] of an empty sequence) this layer stops with [NotANumber].
    Python [int] is [Z].  A float literal with a zero fraction is written
    as the integer ([1.0] is [1]), and a division of Python floats that may
    meet a zero divisor is [Py.div], which raises; NumPy's array division
    does not raise.

    What is stated on the exact layer is what rounding preserves: which
    values are compared and in which order the steps run, weak
    inequalities between results of one expression (every binary64
    operation is monotone), equalities between values computed in the same
    way, and exceptions raised before any rounding matters.  A general
    statement about the rhythm step, or about a trial or a run that goes
    through it, is made on the computations that return: whether
    [f_eta ** 2] underflows to zero or a quotient overflows is decided by
    the rounding.

    The binary64 layer.  Module [B64] embeds the scalar functions on
    binary64 values, with IEEE 754 rounding, infinities and NaN.  It
    evaluates them bit for bit.  A statement that holds in exact
    arithmetic only (a comparison decided by the last bit, a quotient that
    overflows, a difference that rounds to 1) is refuted there.

    Effects.  The module-level generator [rng] is threaded explicitly: a
    computation that draws is a function from the generator state to an
    outcome and the next state.  Python exceptions are outcomes [Raise e].

    NumPy.  The generator and the two numerical primitives that have no
    rational counterpart (the spectral radius and the natural logarithm)
    are an interface; every theorem holds for each implementation of it. *)

From Stdlib Require Import String ZArith Bool QArith Qround Qabs Lia Lra Psatz List.
From Stdlib Require Floats.PrimFloat Floats.FloatOps Floats.SpecFloat Uint63.
Import ListNotations.
Local Open Scope Q_scope.

(** Decimal literals of the binary64 layer stand for the nearest float, as
    they do in Python. *)
Set Warnings "-inexact-float".

(** ** Outcomes and the generator-passing monad *)

Inductive exn : Type :=
| ZeroDivisionError   (* Python: float or int division by zero *)
| ValueError          (* NumPy: negative dimensions; Python: round of NaN *)
| OverflowError       (* Python: round of an infinity, float of a huge int *)
| LinAlgError         (* NumPy: the spectral primitive rejected its input *)
| NotANumber.         (* exact layer: the source computes NaN here *)

Inductive outcome (A : Type) : Type :=
| Ok (a : A)
| Raise (e : exn).
Arguments Ok {A} a.
Arguments Raise {A} e.

Definition obind {A B} (c : outcome A) (k : A -> outcome B) : outcome B :=
  match c with
  | Ok a => k a
  | Raise e => Raise e
  end.

Definition M (G A : Type) : Type := G -> outcome (A * G).

Definition ret {G A} (a : A) : M G A := fun g => Ok (a, g).

Definition bind {G A B} (c : M G A) (k : A -> M G B) : M G B :=
  fun g =>
    match c g with
    | Ok (a, g') => k a g'
    | Raise e => Raise e
    end.

Definition lift {G A} (c : outcome A) : M G A :=
  fun g =>
    match c with
    | Ok a => Ok (a, g)
    | Raise e => Raise e
    end.

Declare Scope py_scope.
Delimit Scope py_scope with py.
Notation "x <- c ;; k" := (bind c (fun x => k))
  (at level 61, c at next level, right associativity) : py_scope.
Notation "' p <- c ;; k" := (bind c (fun x => let p := x in k))
  (at level 61, p pattern, c at next level, right associativity) : py_scope.
Notation "x <~ c ;; k" := (obind c (fun x => k))
  (at level 61, c at next level, right associativity) : py_scope.

(** ** Python and NumPy primitives on exact numbers *)

Module Py.

(** [a < b] as a Python boolean. *)
Definition ltb (a b : Q) : bool := negb (Qle_bool b a).

(** [max(a, b)] on two floats: the first argument is kept unless the
    second is strictly greater. *)
Definition max (a b : Q) : Q := if ltb a b then b else a.

(** [max(a, b)] on two ints. *)
Definition max_int (a b : Z) : Z := if (a <? b)%Z then b else a.

(** [a / b] on floats (or an int and a float): raises on a zero divisor. *)
Definition div (a b : Q) : outcome Q :=
  if Qeq_bool b 0 then Raise ZeroDivisionError else Ok (a / b).

(** [round(x)] with no digits argument: nearest int, ties to even. *)
Definition round (x : Q) : Z :=
  let f := Qfloor x in
  match Qcompare (x - inject_Z f) (1 # 2) with
  | Lt => f
  | Gt => (f + 1)%Z
  | Eq => if Z.even f then f else (f + 1)%Z
  end.

Definition sum (l : list Q) : Q := fold_right Qplus 0 l.

(** [np.mean(l)] of a one-dimensional sequence; NaN when it is empty. *)
Definition mean (l : list Q) : outcome Q :=
  match l with
  | [] => Raise NotANumber
  | _ => Ok (sum l / inject_Z (Z.of_nat (length l)))
  end.

End Py.

(** ** Matrices as lists of rows *)

Definition mat : Type := list (list Q).

Module Mat.

Definition row_sum (a : mat) (i : nat) : Q := Py.sum (nth i a []).

Definition entry (a : mat) (i j : nat) : Q := nth j (nth i a []) 0.

(** [np.fill_diagonal(a, v)] on the rows from index [i] on. *)
Fixpoint set_nth (j : nat) (v : Q) (r : list Q) {struct r} : list Q :=
  match r, j with
  | [], _ => []
  | _ :: r', O => v :: r'
  | x :: r', S j' => x :: set_nth j' v r'
  end.

Fixpoint fill_diagonal_from (i : nat) (a : mat) (v : Q) : mat :=
  match a with
  | [] => []
  | r :: a' => set_nth i v r :: fill_diagonal_from (S i) a' v
  end.

Definition fill_diagonal (a : mat) (v : Q) : mat := fill_diagonal_from 0 a v.

(** [a * mask] with a boolean mask: [True] is 1 and [False] is 0. *)
Fixpoint zip_with {A B C} (f : A -> B -> C) (l : list A) (m : list B) : list C :=
  match l, m with
  | x :: l', y :: m' => f x y :: zip_with f l' m'
  | _, _ => []
  end.

Definition of_bool (b : bool) : Q := if b then 1 else 0.

Definition mul_mask (a : mat) (mask : list (list bool)) : mat :=
  zip_with (zip_with (fun x b => x * of_bool b)) a mask.

(** [a / s] where [s] is a column of one denominator per row. *)
Definition div_rows (a : mat) (s : list Q) : mat :=
  zip_with (fun r d => map (fun x => x / d) r) a s.

Definition eye (n : nat) : mat :=
  map (fun i => map (fun j => if Nat.eqb i j then 1 else 0) (seq 0 n)) (seq 0 n).

Definition add (a b : mat) : mat := zip_with (zip_with Qplus) a b.

Definition scale (a : mat) (c : Q) : mat := map (map (fun x => x * c)) a.

Definition col (b : mat) (j : nat) : list Q := map (fun r => nth j r 0) b.

Definition dot (u v : list Q) : Q := Py.sum (zip_with Qmult u v).

Definition mul (a b : mat) : mat :=
  map (fun r => map (fun j => dot r (col b j)) (seq 0 (length (nth 0 b [])))) a.

(** [np.linalg.matrix_power(a, 3)]. *)
Definition power3 (a : mat) : mat := mul (mul a a) a.

Definition diag (a : mat) : list Q :=
  map (fun i => entry a i i) (seq 0 (length a)).

Definition flatten (a : mat) : list Q := concat a.

End Mat.

(** ** Configuration and result records *)

(** The arguments of the dataclass constructor: [ext_periods] may be left
    at its default [None]. *)
Record ParamsArgs : Type := mkParamsArgs {
  arg_n_species : Z;
  arg_density : Q;
  arg_energy_grad : Q;
  arg_noise_level : Q;
  arg_tidal_mod_amp : Q;
  arg_membrane_threshold : Q;
  arg_membrane_leak : Q;
  arg_code_length : Z;
  arg_alphabet : Z;
  arg_base_error_rate : Q;
  arg_crit_error_threshold : Q;
  arg_f_eta : Q;
  arg_ext_periods : option (list Q);
  arg_resonance_tolerance : Q;
  arg_trials : Z;
  arg_mode : string
}.

(** A constructed [Params] object, after [__post_init__]. *)
Record Params : Type := mkParams {
  n_species : Z;
  density : Q;
  energy_grad : Q;
  noise_level : Q;
  tidal_mod_amp : Q;
  membrane_threshold : Q;
  membrane_leak : Q;
  code_length : Z;
  alphabet : Z;
  base_error_rate : Q;
  crit_error_threshold : Q;
  f_eta : Q;
  ext_periods : list Q;
  resonance_tolerance : Q;
  trials : Z;
  mode : string
}.

(** The field defaults of the dataclass. *)
Definition default_args : ParamsArgs :=
  {| arg_n_species := 20;
     arg_density := 0.6;
     arg_energy_grad := 1;
     arg_noise_level := 0.25;
     arg_tidal_mod_amp := 0.2;
     arg_membrane_threshold := 0.55;
     arg_membrane_leak := 0.15;
     arg_code_length := 64;
     arg_alphabet := 4;
     arg_base_error_rate := 0.02;
     arg_crit_error_threshold := 0.04;
     arg_f_eta := 0.32;
     arg_ext_periods := None;
     arg_resonance_tolerance := 0.08;
     arg_trials := 500;
     arg_mode := "no_field" |}.

Definition default_ext_periods : list Q := [1; 29.5; 31025].

(** [Params.__post_init__]: only a missing period list is replaced. *)
Definition post_init (ext : option (list Q)) : list Q :=
  match ext with
  | None => default_ext_periods
  | Some l => l
  end.

(** What [Params(...)] stores: the generated [__init__] assigns every
    argument to its field and then runs [__post_init__]. *)
Definition stored (a : ParamsArgs) : Params :=
  {| n_species := arg_n_species a;
     density := arg_density a;
     energy_grad := arg_energy_grad a;
     noise_level := arg_noise_level a;
     tidal_mod_amp := arg_tidal_mod_amp a;
     membrane_threshold := arg_membrane_threshold a;
     membrane_leak := arg_membrane_leak a;
     code_length := arg_code_length a;
     alphabet := arg_alphabet a;
     base_error_rate := arg_base_error_rate a;
     crit_error_threshold := arg_crit_error_threshold a;
     f_eta := arg_f_eta a;
     ext_periods := post_init (arg_ext_periods a);
     resonance_tolerance := arg_resonance_tolerance a;
     trials := arg_trials a;
     mode := arg_mode a |}.

(** [Params(...)] as a call that could raise: the outcome type leaves room
    for an exception, and the source has no statement that raises one. *)
Definition Params_init (a : ParamsArgs) : outcome Params := Ok (stored a).

Record Result : Type := mkResult {
  success_rate : Q;
  mean_cycle_coherence : Q;
  mean_replication_fidelity : Q;
  mean_invariant_I : Q;
  successes : Z;
  res_trials : Z;
  res_mode : string
}.

(** The per-trial metrics dictionary, one field per key. *)
Record Metrics : Type := mkMetrics {
  m_coherence : Q;
  m_fidelity : Q;
  m_I : Q;
  m_membrane_stability : Q;
  m_T_internal : Q;
  m_resonance : Q
}.

(** ** The scalar sub-models *)

(** [inner_period]: each external period times [f_eta ** levels], averaged. *)
Definition inner_period (ext : list Q) (eta : Q) (levels : Z) : outcome Q :=
  Py.mean (map (fun T => T * eta ^ levels) ext).

(** One iteration of the loop of [resonance_score]. *)
Definition resonance_term (T_internal tol T : Q) : outcome Q :=
  (r <~ Py.div T T_internal ;;
   let k := Py.max_int 1 (Py.round r) in
   q <~ Py.div T (inject_Z k) ;;
   mismatch <~ Py.div (Qabs (q - T_internal)) (T + 1e-9) ;;
   s <~ Py.div mismatch tol ;;
   Ok (Py.max 0 (1 - s)))%py.

Fixpoint resonance_scores (T_internal tol : Q) (ext : list Q) : outcome (list Q) :=
  match ext with
  | [] => Ok []
  | T :: ext' =>
      (s <~ resonance_term T_internal tol T ;;
       ss <~ resonance_scores T_internal tol ext' ;;
       Ok (s :: ss))%py
  end.

Definition resonance_score (T_internal : Q) (ext : list Q) (tol : Q) : outcome Q :=
  (scores <~ resonance_scores T_internal tol ext ;;
   Py.mean scores)%py.

Definition membrane_stability (base_threshold energy noise : Q) : Q :=
  base_threshold + 0.25 * energy - 0.35 * noise.

(** The local [effective_error] of [replication_fidelity]. *)
Definition effective_error (code_len : Z) (base_error mod_factor : Q) : Q :=
  base_error * (1 + 0.5 * (inject_Z code_len / 64)) * (1 - 0.6 * mod_factor).

Definition replication_fidelity (code_len alpha : Z) (base_error mod_factor : Q) : Q :=
  Py.max 0 (1 - effective_error code_len base_error mod_factor).

Definition invariant_I (coherence T_internal : Q) : outcome Q :=
  Py.div coherence (T_internal + 1e-9).

(** ** The scalar functions in binary64

    The exact layer keeps the operators of the source and drops their
    rounding.  This module keeps both.  A Python [float] is a binary64
    value, each operator rounds to nearest, ties to even, and infinities
    and NaN are values like any other; a Python [int] is [Z].  Python
    raises where IEEE 754 would continue in three places that matter
    here: a float division by zero, [round] of an infinity or a NaN, and
    the conversion of an int beyond the float range.

    The module covers the scalar functions of the source and the last
    step of [run_trial].  Its definitions are evaluated on concrete
    inputs, where rounding or overflow decides the result. *)

Module B64.

Import PrimFloat.

(** The rational a finite float stands for. *)
Definition exact (x : float) : option Q :=
  match FloatOps.Prim2SF x with
  | SpecFloat.S754_zero _ => Some 0
  | SpecFloat.S754_finite s m e =>
      let v := inject_Z (Z.pos m) * 2 ^ e in
      Some (if s then - v else v)
  | SpecFloat.S754_infinity _ => None
  | SpecFloat.S754_nan => None
  end.

(** [float(k)] for an int [k], as [k / 64.0] and [T / k] convert their
    int operand: the nearest float, ties to even, and [OverflowError]
    when that is beyond the largest float. *)
Definition of_int (k : Z) : outcome float :=
  let x :=
    FloatOps.SF2Prim
      (SpecFloat.binary_normalize FloatOps.prec FloatOps.emax k 0 false) in
  if is_infinity x then Raise OverflowError else Ok x.

(** [a / b] on floats: a zero divisor of either sign raises, every other
    quotient is the IEEE one (an infinity on overflow). *)
Definition div (a b : float) : outcome float :=
  if (b =? 0)%float then Raise ZeroDivisionError else Ok (a / b)%float.

(** [max(a, b)]: the first argument is kept unless the second is strictly
    greater, so a NaN second argument is dropped. *)
Definition max (a b : float) : float := if (a <? b)%float then b else a.

(** [round(x)] with no digits argument: the int nearest to the value of
    [x], ties to even; [OverflowError] on an infinity, [ValueError] on a
    NaN. *)
Definition round (x : float) : outcome Z :=
  match exact x with
  | Some q => Ok (Py.round q)
  | None => if is_nan x then Raise ValueError else Raise OverflowError
  end.

(** [float(np.mean(l))]: the sum over the count, NaN on an empty list.
    The elements are added from left to right.  NumPy adds a longer array
    in blocks; on a list of one or two elements the result is NumPy's,
    and the evaluations of this development use no longer list. *)
Definition mean (l : list float) : float :=
  (fold_left add l 0 / of_uint63 (Uint63.of_Z (Z.of_nat (length l))))%float.

(** One iteration of the loop of [resonance_score]. *)
Definition resonance_term (T_internal tol T : float) : outcome float :=
  (r <~ div T T_internal ;;
   n <~ round r ;;
   let k := Py.max_int 1 n in
   kf <~ of_int k ;;
   q <~ div T kf ;;
   mismatch <~ div (abs (q - T_internal)) (T + 1e-9) ;;
   s <~ div mismatch tol ;;
   Ok (max 0 (1 - s)))%py.

Fixpoint resonance_scores (T_internal tol : float) (ext : list float)
  : outcome (list float) :=
  match ext with
  | [] => Ok []
  | T :: ext' =>
      (s <~ resonance_term T_internal tol T ;;
       ss <~ resonance_scores T_internal tol ext' ;;
       Ok (s :: ss))%py
  end.

Definition resonance_score (T_internal : float) (ext : list float) (tol : float)
  : outcome float :=
  (scores <~ resonance_scores T_internal tol ext ;;
   Ok (mean scores))%py.

Definition membrane_stability (base_threshold energy noise : float) : float :=
  (base_threshold + 0.25 * energy - 0.35 * noise)%float.

(** The local [effective_error] of [replication_fidelity]. *)
Definition effective_error (code_len : Z) (base_error mod_factor : float)
  : outcome float :=
  (cl <~ of_int code_len ;;
   Ok (base_error * (1 + 0.5 * (cl / 64)) * (1 - 0.6 * mod_factor))%float)%py.

Definition replication_fidelity (code_len alpha : Z) (base_error mod_factor : float)
  : outcome float :=
  (e <~ effective_error code_len base_error mod_factor ;;
   Ok (max 0 (1 - e)))%py.

Definition invariant_I (coherence T_internal : float) : outcome float :=
  div coherence (T_internal + 1e-9).

(** Lines 181 to 193 of [run_trial]: the verdict on the values the earlier
    steps left, with the fidelity and the invariant it records. *)
Definition verdict (mem_stab : float) (has_cycle : bool)
           (coherence T_int mod_factor : float)
           (code_len alpha : Z) (base_error crit : float)
  : outcome (bool * float * float) :=
  (let holds := (0.5 <? mem_stab)%float && has_cycle in
   fidelity <~ replication_fidelity code_len alpha base_error mod_factor ;;
   let error_ok := (1 - fidelity <? crit)%float in
   Ival <~ invariant_I coherence T_int ;;
   Ok (holds && error_ok, fidelity, Ival))%py.

(** The inputs of the evaluations: a threshold a few units in the last
    place above the no-field effective error of the default
    configuration, an internal period of [2 ** -1060], and a base error
    rate of [1e-17]. *)
Definition tight_threshold : float := 0.02910000000000001.
Definition tiny_period : float := 0x1p-1060.
Definition tiny_error : float := 1e-17.

End B64.

(** ** The NumPy collaborators *)

(** The random source: [rng.random()] and [rng.normal(loc, scale)], each
    returning the drawn value and the advanced generator.  A uniform draw
    lies in the half-open unit interval. *)
Class Generator (G : Type) : Type := {
  rng_random : G -> Q * G;
  rng_normal : Q -> Q -> G -> Q * G;
  rng_random_unit : forall g, 0 <= fst (rng_random g) < 1
}.

(** The numerical primitives: [np.max(np.abs(np.linalg.eigvals(a))).real]
    and [np.log].  The spectral radius is defined on every matrix with at
    least one row. *)
Class Numeric : Type := {
  spectral_radius : mat -> outcome Q;
  np_log : Q -> Q;
  spectral_radius_defined : forall a, a <> [] -> exists r, spectral_radius a = Ok r
}.

Section Core.

Context {G : Type} {gen : Generator G} {num : Numeric}.

Local Open Scope py_scope.

Definition random : M G Q := fun g => Ok (rng_random g).

Definition normal (loc scale : Q) : M G Q := fun g => Ok (rng_normal loc scale g).

(** [rng.random((n, n))]: the entries are drawn one after the other, row
    by row. *)
Fixpoint random_row (n : nat) (g : G) : list Q * G :=
  match n with
  | O => ([], g)
  | S n' =>
      let (x, g1) := rng_random g in
      let (r, g2) := random_row n' g1 in
      (x :: r, g2)
  end.

Fixpoint random_rows (m n : nat) (g : G) : mat * G :=
  match m with
  | O => ([], g)
  | S m' =>
      let (r, g1) := random_row n g in
      let (a, g2) := random_rows m' n g1 in
      (r :: a, g2)
  end.

Definition random_matrix (n : Z) : M G mat :=
  fun g =>
    if (n <? 0)%Z then Raise ValueError
    else Ok (random_rows (Z.to_nat n) (Z.to_nat n) g).

(** Lines 62 to 67 of the source: what [build_reaction_network] does with
    the two drawn matrices. *)
Definition reaction_network_of (adj u : mat) (dens : Q) : mat :=
  let mask := map (map (fun x => Py.ltb x dens)) u in
  let adj := Mat.mul_mask adj mask in
  let adj := Mat.fill_diagonal adj 0 in
  let row_sums := map (fun r => Py.sum r + 1e-12) adj in
  Mat.div_rows adj row_sums.

Definition build_reaction_network (n : Z) (dens : Q) : M G mat :=
  adj <- random_matrix n ;;
  u <- random_matrix n ;;
  ret (reaction_network_of adj u dens).

Definition evaluate_cycle_coherence (adj : mat) (energy leak noise : Q)
  : outcome (Q * bool) :=
  let n := length adj in
  rho <~ spectral_radius adj ;;
  let p := map (map (fun x => x + 1e-12)) adj in
  let entropy :=
    - Py.sum (map (fun x => x * np_log x) (Mat.flatten p)) / inject_Z (Z.of_nat n) in
  let coherence := rho * (1 + 0.6 * energy) - (0.4 * leak + 0.3 * noise) in
  loop_strength <~
    Py.mean (Mat.diag (Mat.power3 (Mat.add adj (Mat.scale (Mat.eye n) 1e-6)))) ;;
  let has_cycle := Py.ltb 0.85 (coherence + 0.15 * entropy + 0.5 * loop_strength) in
  Ok (coherence, has_cycle).

(** Step 2 of [run_trial]: the three stochastic environment values
    [(energy, noise, leak)]. *)
Definition environment (params : Params) : M G (Q * Q * Q) :=
  z1 <- normal 0 0.1 ;;
  let energy := energy_grad params * (1 + z1) in
  z2 <- normal 0 0.2 ;;
  let noise := Py.max 0 (noise_level params * (1 + z2)) in
  z3 <- normal 0 0.25 ;;
  let leak := Py.max 0 (membrane_leak params * (1 + z3)) in
  ret (energy, noise, leak).

(** Step 4 of [run_trial]: [(T_int, reson, mod_factor)].  Every mode
    string other than ["no_field"] takes the second branch. *)
Definition rhythms (params : Params) : M G (Q * Q * Q) :=
  if String.eqb (mode params) "no_field" then
    u <- random ;;
    ret (Py.max 0.05 (u * 2), 0, 0.05)
  else
    T_int <- lift (inner_period (ext_periods params) (f_eta params) 2) ;;
    reson <- lift (resonance_score T_int (ext_periods params)
                     (resonance_tolerance params)) ;;
    ret (T_int, reson, 0.2 + 0.6 * reson).

Definition run_trial (params : Params) : M G (bool * Metrics) :=
  adj <- build_reaction_network (n_species params) (density params) ;;
  ' (energy, noise, leak) <- environment params ;;
  let mem_stab := membrane_stability (membrane_threshold params) energy noise in
  ' (T_int, reson, mod_factor) <- rhythms params ;;
  ' (coherence, has_cycle) <- lift (evaluate_cycle_coherence adj energy leak noise) ;;
  let holds := Py.ltb 0.5 mem_stab && has_cycle in
  let fidelity :=
    replication_fidelity (code_length params) (alphabet params)
      (base_error_rate params) mod_factor in
  let error_ok := Py.ltb (1 - fidelity) (crit_error_threshold params) in
  Ival <- lift (invariant_I coherence T_int) ;;
  let success := holds && error_ok in
  ret (success,
       {| m_coherence := coherence;
          m_fidelity := fidelity;
          m_I := Ival;
          m_membrane_stability := mem_stab;
          m_T_internal := T_int;
          m_resonance := reson |}).

(** The running state of the loop of [run_simulation]:
    [successes], [coh_list], [fid_list] and [I_list]. *)
Record Tally : Type := mkTally {
  t_successes : Z;
  coh_list : list Q;
  fid_list : list Q;
  I_list : list Q
}.

Definition tally0 : Tally :=
  {| t_successes := 0; coh_list := []; fid_list := []; I_list := [] |}.

(** [for _ in range(k)]: one call of [run_trial] per iteration. *)
Fixpoint trial_loop (k : nat) (params : Params) (t : Tally) : M G Tally :=
  match k with
  | O => ret t
  | S k' =>
      ' (success, m) <- run_trial params ;;
      trial_loop k' params
        {| t_successes := if success then (t_successes t + 1)%Z else t_successes t;
           coh_list := coh_list t ++ [m_coherence m];
           fid_list := fid_list t ++ [m_fidelity m];
           I_list := I_list t ++ [m_I m] |}
  end.

(** [float(np.mean(l)) if l else 0]. *)
Definition mean_or_zero (l : list Q) : outcome Q :=
  match l with
  | [] => Ok 0
  | _ => Py.mean l
  end.

Definition run_simulation (params : Params) : M G Result :=
  t <- trial_loop (Z.to_nat (trials params)) params tally0 ;;
  sr <- lift (Py.div (inject_Z (t_successes t)) (inject_Z (trials params))) ;;
  mc <- lift (mean_or_zero (coh_list t)) ;;
  mf <- lift (mean_or_zero (fid_list t)) ;;
  mi <- lift (mean_or_zero (I_list t)) ;;
  ret {| success_rate := sr;
         mean_cycle_coherence := mc;
         mean_replication_fidelity := mf;
         mean_invariant_I := mi;
         successes := t_successes t;
         res_trials := trials params;
         res_mode := mode params |}.

(** Two successive calls of [run_simulation] in one process: the second
    call finds the module-level generator where the first left it. *)
Definition run_twice (params : Params) : M G (Result * Result) :=
  r1 <- run_simulation params ;;
  r2 <- run_simulation params ;;
  ret (r1, r2).

End Core.

(** ** Generators that yield the same draws

    [same_draws R]: from two generator states related by [R], a uniform
    draw yields the same value on both sides, so does a normal draw of the
    same location and scale, and the advanced states are related again.
    The two generators need not be of the same kind. *)
Definition same_draws {G1 G2 : Type} {gen1 : Generator G1} {gen2 : Generator G2}
           (R : G1 -> G2 -> Prop) : Prop :=
  forall g1 g2, R g1 g2 ->
    (fst (rng_random g1) = fst (rng_random g2) /\
     R (snd (rng_random g1)) (snd (rng_random g2))) /\
    (forall loc scale,
        fst (rng_normal loc scale g1) = fst (rng_normal loc scale g2) /\
        R (snd (rng_normal loc scale g1)) (snd (rng_normal loc scale g2))).

(** Two outcomes that agree: the same value with related generator
    states, or the same exception. *)
Definition same_outcome {G1 G2 A : Type} (R : G1 -> G2 -> Prop)
           (o1 : outcome (A * G1)) (o2 : outcome (A * G2)) : Prop :=
  match o1, o2 with
  | Ok (a1, g1), Ok (a2, g2) => a1 = a2 /\ R g1 g2
  | Raise e1, Raise e2 => e1 = e2
  | _, _ => False
  end.

(** Two computations that agree from related generator states. *)
Definition same_run {G1 G2 A : Type} (R : G1 -> G2 -> Prop)
           (c1 : M G1 A) (c2 : M G2 A) : Prop :=
  forall g1 g2, R g1 g2 -> same_outcome R (c1 g1) (c2 g2).

(** ** Well-formed configurations

    The constraints of the data model on a [Params] value. *)
Record well_formed (p : Params) : Prop := {
  wf_n_species : (1 <= n_species p)%Z;
  wf_density : 0 <= density p <= 1;
  wf_energy_grad : 0 <= energy_grad p;
  wf_noise_level : 0 <= noise_level p;
  wf_membrane_leak : 0 <= membrane_leak p;
  wf_code_length : (1 <= code_length p)%Z;
  wf_alphabet : (2 <= alphabet p)%Z;
  wf_base_error_rate : 0 <= base_error_rate p <= 1;
  wf_crit_error_threshold : 0 <= crit_error_threshold p <= 1;
  wf_f_eta : 0 < f_eta p < 1;
  wf_ext_periods_nonempty : ext_periods p <> [];
  wf_ext_periods_positive : Forall (fun T => 0 < T) (ext_periods p);
  wf_resonance_tolerance : 0 < resonance_tolerance p;
  wf_trials : (1 <= trials p)%Z;
  wf_mode : mode p = "no_field"%string \/ mode p = "field"%string
}.

(** A value of the half-open unit interval, the range of a uniform draw. *)
Definition unit_interval (x : Q) : Prop := 0 <= x < 1.

(** A matrix of [n] columns whose entries all lie in the unit interval. *)
Definition unit_rows (n : nat) (a : mat) : Prop :=
  Forall (fun r => length r = n /\ Forall unit_interval r) a.

(** Row [i] of the drawn weights [a] after lines 62 to 64 of the source:
    masked by [u < dens], diagonal entry cleared. *)
Definition kept_row (a u : mat) (dens : Q) (i : nat) : list Q :=
  Mat.set_nth i 0 (nth i (Mat.mul_mask a (map (map (fun x => Py.ltb x dens)) u)) []).

(** One row of the reaction network: the kept row, each entry divided by
    the row sum plus the guard. *)
Definition normalised (r : list Q) : list Q :=
  map (fun x => x / (Py.sum r + 1e-12)) r.

(** ** A replay generator and a coarse numeric backend

    To evaluate the model on concrete inputs the draws are read from a
    tape recorded in advance: uniform draws from one list, standard normal
    deviates from another.  A recorded uniform draw outside the half-open
    unit interval is read as 0, and an exhausted tape yields 0. *)
Record Tape : Type := mkTape {
  uniforms : list Q;
  deviates : list Q
}.

Definition unit_or_zero (x : Q) : Q :=
  if Qle_bool 0 x && negb (Qle_bool 1 x) then x else 0.

Definition tape_random (t : Tape) : Q * Tape :=
  match uniforms t with
  | [] => (0, t)
  | x :: l => (unit_or_zero x, {| uniforms := l; deviates := deviates t |})
  end.

Definition tape_normal (loc scale : Q) (t : Tape) : Q * Tape :=
  match deviates t with
  | [] => (loc, t)
  | z :: l => (loc + scale * z, {| uniforms := uniforms t; deviates := l |})
  end.

#[export] Instance tape_generator : Generator Tape.
Proof.
  refine {| rng_random := tape_random; rng_normal := tape_normal |}.
  intro t. unfold tape_random, unit_or_zero.
  destruct (uniforms t) as [| x l]; cbn [fst]; [lra |].
  destruct (Qle_bool 0 x) eqn:E0; cbn [andb]; [| lra].
  destruct (Qle_bool 1 x) eqn:E1; cbn [negb]; [lra |].
  apply Qle_bool_iff in E0. split; trivial.
  apply Qnot_le_lt. intro Hle. apply Qle_bool_iff in Hle. congruence.
Defined.

(** The backend reports spectral radius 1, the value for a row-stochastic
    matrix, and replaces the logarithm by its tangent at 1. *)
Definition coarse_spectral_radius (a : mat) : outcome Q :=
  match a with
  | [] => Raise LinAlgError
  | _ => Ok 1
  end.

#[export] Instance coarse_numeric : Numeric.
Proof.
  refine {| spectral_radius := coarse_spectral_radius; np_log := fun x => x - 1 |}.
  intros a Ha. destruct a as [| r a']; [contradiction |]. now exists 1.
Defined.

(** A small well-formed configuration and the tapes it is run on. *)
Definition small_params (md : string) : Params :=
  {| n_species := 2;
     density := 0.6;
     energy_grad := 1;
     noise_level := 0.25;
     tidal_mod_amp := 0.2;
     membrane_threshold := 0.55;
     membrane_leak := 0.15;
     code_length := 64;
     alphabet := 4;
     base_error_rate := 0.02;
     crit_error_threshold := 0.04;
     f_eta := 0.5;
     ext_periods := [1; 2];
     resonance_tolerance := 0.08;
     trials := 2;
     mode := md |}.

Definition demo_tape : Tape :=
  {| uniforms := [0.3; 0.7; 0.9; 0.2; 0.1; 0.5; 0.4; 0.8; 0.25];
     deviates := [0.1; 0 - 0.2; 0.3] |}.

(** [Params(trials=0)]: the defaults with an empty run. *)
Definition zero_trials_args : ParamsArgs :=
  {| arg_n_species := 20;
     arg_density := 0.6;
     arg_energy_grad := 1;
     arg_noise_level := 0.25;
     arg_tidal_mod_amp := 0.2;
     arg_membrane_threshold := 0.55;
     arg_membrane_leak := 0.15;
     arg_code_length := 64;
     arg_alphabet := 4;
     arg_base_error_rate := 0.02;
     arg_crit_error_threshold := 0.04;
     arg_f_eta := 0.32;
     arg_ext_periods := None;
     arg_resonance_tolerance := 0.08;
     arg_trials := 0;
     arg_mode := "no_field" |}.

(** [Params(n_species=0, ext_periods=[], resonance_tolerance=-0.08)]. *)
Definition degenerate_args : ParamsArgs :=
  {| arg_n_species := 0;
     arg_density := 0.6;
     arg_energy_grad := 1;
     arg_noise_level := 0.25;
     arg_tidal_mod_amp := 0.2;
     arg_membrane_threshold := 0.55;
     arg_membrane_leak := 0.15;
     arg_code_length := 64;
     arg_alphabet := 4;
     arg_base_error_rate := 0.02;
     arg_crit_error_threshold := 0.04;
     arg_f_eta := 0.32;
     arg_ext_periods := Some [];
     arg_resonance_tolerance := - 0.08;
     arg_trials := 500;
     arg_mode := "field" |}.

(** Draws for a 2 by 2 network at density 1 in which the only weight kept
    in the first row is the smallest non-zero value of a uniform double
    draw, 2^-53. *)
Definition faint_tape : Tape :=
  {| uniforms := [0.5; 1 # 9007199254740992; 0.5; 0.5; 0; 0; 0; 0];
     deviates := [] |}.

(** The configuration [p] under another mode string, all other fields
    kept: what the stress tests build with [Params(mode=..., **params_dict)]
    for their paired runs. *)
Definition with_mode (p : Params) (md : string) : Params :=
  {| n_species := n_species p;
     density := density p;
     energy_grad := energy_grad p;
     noise_level := noise_level p;
     tidal_mod_amp := tidal_mod_amp p;
     membrane_threshold := membrane_threshold p;
     membrane_leak := membrane_leak p;
     code_length := code_length p;
     alphabet := alphabet p;
     base_error_rate := base_error_rate p;
     crit_error_threshold := crit_error_threshold p;
     f_eta := f_eta p;
     ext_periods := ext_periods p;
     resonance_tolerance := resonance_tolerance p;
     trials := trials p;
     mode := md |}.

(** ** The stress tests of [run_stress_tests.py]

    The three analyses are modelled for what they return and for the
    draws they consume; their console output is not part of the model. *)

(** [kw.get(key, default)] on a keyword dictionary of float values. *)
Fixpoint keyword (key : string) (kw : list (string * Q)) (default : Q) : Q :=
  match kw with
  | [] => default
  | (k, v) :: kw' => if String.eqb k key then v else keyword key kw' default
  end.

(** [Params(mode=md, trials=tr, ext_periods=ext, **kw)] where [kw] holds
    float fields only, as every keyword dictionary of the stress tests
    does: a field named in [kw] takes that value, every other field its
    dataclass default. *)
Definition keyword_args (md : string) (tr : Z) (ext : option (list Q))
           (kw : list (string * Q)) : ParamsArgs :=
  {| arg_n_species := 20;
     arg_density := keyword "density" kw 0.6;
     arg_energy_grad := keyword "energy_grad" kw 1;
     arg_noise_level := keyword "noise_level" kw 0.25;
     arg_tidal_mod_amp := keyword "tidal_mod_amp" kw 0.2;
     arg_membrane_threshold := keyword "membrane_threshold" kw 0.55;
     arg_membrane_leak := keyword "membrane_leak" kw 0.15;
     arg_code_length := 64;
     arg_alphabet := 4;
     arg_base_error_rate := keyword "base_error_rate" kw 0.02;
     arg_crit_error_threshold := keyword "crit_error_threshold" kw 0.04;
     arg_f_eta := keyword "f_eta" kw 0.32;
     arg_ext_periods := ext;
     arg_resonance_tolerance := keyword "resonance_tolerance" kw 0.08;
     arg_trials := tr;
     arg_mode := md |}.

(** One entry of [harder_params]: its name and its other keys. *)
Record Modification : Type := mkModification {
  mod_name : string;
  mod_kwargs : list (string * Q)
}.

Definition harder_params : list Modification :=
  [ {| mod_name := "High Noise";
       mod_kwargs := [("noise_level", 0.5); ("membrane_leak", 0.3)] |};
    {| mod_name := "Low Energy";
       mod_kwargs := [("energy_grad", 0.5)] |};
    {| mod_name := "High Error Rate";
       mod_kwargs := [("base_error_rate", 0.035); ("crit_error_threshold", 0.04)] |};
    {| mod_name := "Hard Mode (Combined)";
       mod_kwargs := [("noise_level", 0.4); ("energy_grad", 0.6);
                      ("base_error_rate", 0.03)] |} ]%string.

(** One dictionary appended to [results] by [parameter_sweep]. *)
Record SweepRow : Type := mkSweepRow {
  test_name : string;
  no_field_success : Q;
  field_success : Q;
  improvement : Q
}.

Definition eta_values : list Q := [0.1; 0.2; 0.32; 0.4; 0.5; 0.618; 0.7; 0.9].

(** One dictionary appended to [results] by [analyze_eta_effect]. *)
Record EtaRow : Type := mkEtaRow {
  eta_value : Q;
  eta_success_rate : Q;
  eta_coherence : Q
}.

Definition period_sets : list (string * list Q) :=
  [ ("Earth", [1; 29.5; 365.25]);
    ("Mars", [1.03; 30.5; 687]);
    ("Solar (22yr)", [1; 365.25; 8030]);
    ("EnGeL (Node 8.5)", [1; 29.5; 3102.5]) ]%string.

(** One dictionary appended to [results] by [analyze_periods]. *)
Record PeriodRow : Type := mkPeriodRow {
  period_name : string;
  period_success_rate : Q
}.

Section StressTests.

Context {G : Type} {gen : Generator G} {num : Numeric}.

Local Open Scope py_scope.

(** The loop of [parameter_sweep] over the remaining modifications. *)
Fixpoint sweep_loop (mods : list Modification) (results : list SweepRow)
  : M G (list SweepRow) :=
  match mods with
  | [] => ret results
  | md :: rest =>
      base_params <- lift (Params_init
                             (keyword_args "no_field" 300 None (mod_kwargs md))) ;;
      r0 <- run_simulation base_params ;;
      field_params <- lift (Params_init
                              (keyword_args "field" 300 None (mod_kwargs md))) ;;
      r1 <- run_simulation field_params ;;
      sweep_loop rest
        (results ++ [ {| test_name := mod_name md;
                         no_field_success := success_rate r0;
                         field_success := success_rate r1;
                         improvement := success_rate r1 - success_rate r0 |} ])
  end.

Definition parameter_sweep : M G (list SweepRow) := sweep_loop harder_params [].

(** The loop of [analyze_eta_effect] over the remaining values. *)
Fixpoint eta_loop (etas : list Q) (results : list EtaRow) : M G (list EtaRow) :=
  match etas with
  | [] => ret results
  | eta :: rest =>
      params <- lift (Params_init
                        (keyword_args "field" 200 None
                           [("f_eta", eta); ("noise_level", 0.35);
                            ("energy_grad", 0.7)]%string)) ;;
      r <- run_simulation params ;;
      eta_loop rest
        (results ++ [ {| eta_value := eta;
                         eta_success_rate := success_rate r;
                         eta_coherence := mean_cycle_coherence r |} ])
  end.

Definition analyze_eta_effect : M G (list EtaRow) := eta_loop eta_values [].

(** The loop of [analyze_periods] over the remaining period sets. *)
Fixpoint period_loop (sets : list (string * list Q)) (results : list PeriodRow)
  : M G (list PeriodRow) :=
  match sets with
  | [] => ret results
  | pset :: rest =>
      params <- lift (Params_init
                        (keyword_args "field" 200 (Some (snd pset))
                           [("noise_level", 0.35)]%string)) ;;
      r <- run_simulation params ;;
      period_loop rest
        (results ++ [ {| period_name := fst pset;
                         period_success_rate := success_rate r |} ])
  end.

Definition analyze_periods : M G (list PeriodRow) := period_loop period_sets [].

End StressTests.

(** Two configurations with the same chemistry, membrane and trial count:
    they may differ in the information carrier and in the rhythm fields. *)
Definition same_chemistry (p1 p2 : Params) : Prop :=
  n_species p1 = n_species p2 /\ density p1 = density p2 /\
  energy_grad p1 = energy_grad p2 /\ noise_level p1 = noise_level p2 /\
  membrane_threshold p1 = membrane_threshold p2 /\
  membrane_leak p1 = membrane_leak p2 /\ trials p1 = trials p2.

(** A configuration in a mode other than ["no_field"] whose effective
    error stays below the threshold for every resonance: at the smallest
    modulation factor of that branch, 0.2, the factor [1 - 0.6 * 0.2] is
    0.88. *)
Definition replication_gate_open (p : Params) : Prop :=
  mode p <> "no_field"%string /\ (1 <= code_length p)%Z /\
  0 <= base_error_rate p /\
  base_error_rate p * (1 + 0.5 * (inject_Z (code_length p) / 64)) * 0.88
    < crit_error_threshold p.

(** The threshold of a configuration is at most 1 and at or below its
    effective error at the no-field modulation factor 0.05, where the
    factor [1 - 0.6 * 0.05] is 0.97. *)
Definition gate_closed (p : Params) : Prop :=
  crit_error_threshold p <= 1 /\
  crit_error_threshold p
    <= base_error_rate p * (1 + 0.5 * (inject_Z (code_length p) / 64)) * 0.97.

(** What a row of [parameter_sweep] holds for its modification. *)
Definition sweep_row_of (md : Modification) (row : SweepRow) : Prop :=
  test_name row = mod_name md /\
  0 <= no_field_success row <= 1 /\
  0 <= field_success row <= 1 /\
  improvement row = field_success row - no_field_success row /\
  (gate_closed (stored (keyword_args "no_field" 300 None (mod_kwargs md))) ->
   no_field_success row == 0).

(** Further concrete inputs: a second tape, a small configuration whose
    replication gate is closed without the field, one with a negative
    trial count, and a field configuration with other rhythm fields. *)
Definition other_tape : Tape :=
  {| uniforms := [0.9; 0.1; 0.6; 0.4; 0.2; 0.8; 0.7; 0.3; 0.75];
     deviates := [0 - 0.3; 0.2; 0.1] |}.

Definition closed_gate_params : Params :=
  {| n_species := 2;
     density := 0.6;
     energy_grad := 1;
     noise_level := 0.25;
     tidal_mod_amp := 0.2;
     membrane_threshold := 0.55;
     membrane_leak := 0.15;
     code_length := 64;
     alphabet := 4;
     base_error_rate := 0.035;
     crit_error_threshold := 0.04;
     f_eta := 0.5;
     ext_periods := [1; 2];
     resonance_tolerance := 0.08;
     trials := 2;
     mode := "no_field" |}.

Definition negative_trials_params : Params :=
  {| n_species := 2;
     density := 0.6;
     energy_grad := 1;
     noise_level := 0.25;
     tidal_mod_amp := 0.2;
     membrane_threshold := 0.55;
     membrane_leak := 0.15;
     code_length := 64;
     alphabet := 4;
     base_error_rate := 0.02;
     crit_error_threshold := 0.04;
     f_eta := 0.5;
     ext_periods := [1; 2];
     resonance_tolerance := 0.08;
     trials := -3;
     mode := "field" |}.

Definition other_rhythm_params : Params :=
  {| n_species := 2;
     density := 0.6;
     energy_grad := 1;
     noise_level := 0.25;
     tidal_mod_amp := 0.2;
     membrane_threshold := 0.55;
     membrane_leak := 0.15;
     code_length := 64;
     alphabet := 4;
     base_error_rate := 0.02;
     crit_error_threshold := 0.04;
     f_eta := 0.25;
     ext_periods := [1; 3; 7];
     resonance_tolerance := 0.05;
     trials := 2;
     mode := "field" |}.

(** Two tapes that replay the same draws: their uniform values agree once
    read, and their deviates agree. *)
Definition same_replay (t1 t2 : Tape) : Prop :=
  map unit_or_zero (uniforms t1) = map unit_or_zero (uniforms t2) /\
  deviates t1 = deviates t2.

(** [demo_tape] with its second uniform value recorded out of range, and
    with that value recorded as the 0 it is read as. *)
Definition clipped_tape : Tape :=
  {| uniforms := [0.3; 1.5; 0.9; 0.2; 0.1; 0.5; 0.4; 0.8; 0.25];
     deviates := [0.1; 0 - 0.2; 0.3] |}.

Definition zeroed_tape : Tape :=
  {| uniforms := [0.3; 0; 0.9; 0.2; 0.1; 0.5; 0.4; 0.8; 0.25];
     deviates := [0.1; 0 - 0.2; 0.3] |}.

(** Draws for four trials of two species in a mode other than
    ["no_field"]: the same eight uniform values and the same three
    deviates for each trial, but for the second deviate of the fourth
    trial, which sets its noise. *)
Definition four_trials_tape : Tape :=
  {| uniforms := [0.3; 0.7; 0.9; 0.2; 0.1; 0.5; 0.4; 0.8;
                  0.3; 0.7; 0.9; 0.2; 0.1; 0.5; 0.4; 0.8;
                  0.3; 0.7; 0.9; 0.2; 0.1; 0.5; 0.4; 0.8;
                  0.3; 0.7; 0.9; 0.2; 0.1; 0.5; 0.4; 0.8];
     deviates := [0.1; 0 - 0.2; 0.3;
                  0.1; 0 - 0.2; 0.3;
                  0.1; 0 - 0.2; 0.3;
                  0.1; 0.4; 0.3] |}.

(** A configuration with a negative species count. *)
Definition negative_species_params : Params :=
  {| n_species := -1;
     density := 0.6;
     energy_grad := 1;
     noise_level := 0.25;
     tidal_mod_amp := 0.2;
     membrane_threshold := 0.55;
     membrane_leak := 0.15;
     code_length := 64;
     alphabet := 4;
     base_error_rate := 0.02;
     crit_error_threshold := 0.04;
     f_eta := 0.5;
     ext_periods := [1; 2];
     resonance_tolerance := 0.08;
     trials := 2;
     mode := "field" |}.

(** * Properties *)

(** ** The Python primitives *)

Lemma ltb_true_iff (a b : Q) : Py.ltb a b = true <-> a < b.
Proof.
  unfold Py.ltb. rewrite negb_true_iff.
  split; intro Hab.
  - apply Qnot_le_lt. intro Hle. apply Qle_bool_iff in Hle. congruence.
  - destruct (Qle_bool b a) eqn:E; trivial.
    apply Qle_bool_iff in E. exfalso. apply (Qlt_not_le _ _ Hab E).
Qed.

Lemma ltb_false_iff (a b : Q) : Py.ltb a b = false <-> b <= a.
Proof.
  unfold Py.ltb. rewrite negb_false_iff. apply Qle_bool_iff.
Qed.

Lemma max_cases (a b : Q) :
  (a < b /\ Py.max a b = b) \/ (b <= a /\ Py.max a b = a).
Proof.
  unfold Py.max. destruct (Py.ltb a b) eqn:E.
  - left. split; trivial. now apply ltb_true_iff.
  - right. split; trivial. now apply ltb_false_iff.
Qed.

Lemma max_lower (a b : Q) : a <= Py.max a b.
Proof. destruct (max_cases a b) as [[Hlt ->] | [Hle ->]]; lra. Qed.

Lemma max_upper (a b c : Q) : a <= c -> b <= c -> Py.max a b <= c.
Proof. intros Ha Hb. destruct (max_cases a b) as [[_ ->] | [_ ->]]; trivial. Qed.

Lemma max_monotone (a b b' : Q) : b <= b' -> Py.max a b <= Py.max a b'.
Proof.
  intro Hbb.
  destruct (max_cases a b) as [[H1 ->] | [H1 ->]];
    destruct (max_cases a b') as [[H2 ->] | [H2 ->]]; lra.
Qed.

Lemma div_defined (a b : Q) : ~ b == 0 -> Py.div a b = Ok (a / b).
Proof.
  intro Hb. unfold Py.div. destruct (Qeq_bool b 0) eqn:E; trivial.
  apply Qeq_bool_eq in E. contradiction.
Qed.

Lemma Ok_injective {A} (a b : A) : Ok a = Ok b -> a = b.
Proof. intro E. now injection E. Qed.

(** Decimal literals with an exponent and quotients by a literal are
    brought to one fraction before linear arithmetic. *)
Ltac qlit :=
  unfold Qdiv;
  try (let v := eval cbv in (/ 64) in change (/ 64) with v).

Lemma inject_Z_ge_1 (z : Z) : (1 <= z)%Z -> 1 <= inject_Z z.
Proof.
  intro Hz. assert (Hq : inject_Z 1 <= inject_Z z) by now rewrite <- Zle_Qle.
  exact Hq.
Qed.

(** ** Replication fidelity *)

Lemma length_factor_positive (cl : Z) :
  (1 <= cl)%Z -> 1 < 1 + 0.5 * (inject_Z cl / 64).
Proof.
  intro Hcl. apply inject_Z_ge_1 in Hcl. qlit. lra.
Qed.

Lemma length_factor_monotone (c1 c2 : Z) :
  (c1 <= c2)%Z ->
  1 + 0.5 * (inject_Z c1 / 64) <= 1 + 0.5 * (inject_Z c2 / 64).
Proof.
  intro Hc. rewrite Zle_Qle in Hc. qlit. lra.
Qed.

Lemma effective_error_nonneg (cl : Z) (be mf : Q) :
  (1 <= cl)%Z -> 0 <= be -> 0 <= 1 - 0.6 * mf ->
  0 <= effective_error cl be mf.
Proof.
  intros Hcl Hbe Hmf. unfold effective_error.
  apply Qmult_le_0_compat; [apply Qmult_le_0_compat |]; trivial.
  pose proof (length_factor_positive cl Hcl). lra.
Qed.

Lemma effective_error_monotone_base (cl : Z) (b1 b2 mf : Q) :
  (1 <= cl)%Z -> 0 <= 1 - 0.6 * mf -> b1 <= b2 ->
  effective_error cl b1 mf <= effective_error cl b2 mf.
Proof.
  intros Hcl Hmf Hb. unfold effective_error.
  apply Qmult_le_compat_r; trivial.
  apply Qmult_le_compat_r; trivial.
  pose proof (length_factor_positive cl Hcl). lra.
Qed.

Lemma effective_error_monotone_length (c1 c2 : Z) (be mf : Q) :
  0 <= be -> 0 <= 1 - 0.6 * mf -> (c1 <= c2)%Z ->
  effective_error c1 be mf <= effective_error c2 be mf.
Proof.
  intros Hbe Hmf Hc. unfold effective_error.
  apply Qmult_le_compat_r; trivial.
  rewrite !(Qmult_comm be).
  apply Qmult_le_compat_r; trivial.
  now apply length_factor_monotone.
Qed.

Lemma fidelity_antitone (c1 c2 al : Z) (b1 b2 m1 m2 : Q) :
  effective_error c1 b1 m1 <= effective_error c2 b2 m2 ->
  replication_fidelity c2 al b2 m2 <= replication_fidelity c1 al b1 m1.
Proof.
  intro He. unfold replication_fidelity. apply max_monotone. lra.
Qed.

(** C8.  With the protection factor [1 - 0.6 * mod_factor] non-negative,
    [replication_fidelity] never increases when [base_error] grows (for a
    code length of the data model, at least 1) and never increases when
    [code_length] grows (for a base error rate of the data model, at least
    0); the other arguments are held fixed. *)
Theorem replication_fidelity_monotone (al : Z) (mf : Q) :
  0 <= 1 - 0.6 * mf ->
  (forall (cl : Z) (b1 b2 : Q),
      (1 <= cl)%Z -> b1 <= b2 ->
      replication_fidelity cl al b2 mf <= replication_fidelity cl al b1 mf) /\
  (forall (be : Q) (c1 c2 : Z),
      0 <= be -> (c1 <= c2)%Z ->
      replication_fidelity c2 al be mf <= replication_fidelity c1 al be mf).
Proof.
  intro Hmf. split.
  - intros cl b1 b2 Hcl Hb. apply fidelity_antitone.
    now apply effective_error_monotone_base.
  - intros be c1 c2 Hbe Hc. apply fidelity_antitone.
    now apply effective_error_monotone_length.
Qed.

(** C9.  For a code length of at least 1, a base error in [0,1] and a
    modulation factor in [0, 0.8], [replication_fidelity] returns a value
    in the closed unit interval. *)
Theorem replication_fidelity_unit_interval (cl al : Z) (be mf : Q) :
  (1 <= cl)%Z -> 0 <= be <= 1 -> 0 <= mf <= 0.8 ->
  0 <= replication_fidelity cl al be mf <= 1.
Proof.
  intros Hcl [Hbe _] [_ Hmf]. unfold replication_fidelity. split.
  - apply max_lower.
  - assert (He : 0 <= effective_error cl be mf)
      by (apply effective_error_nonneg; trivial; lra).
    apply max_upper; lra.
Qed.

(** ** Lists and matrices *)

Lemma zip_with_length {A B C} (f : A -> B -> C) (l : list A) (m : list B) :
  length (Mat.zip_with f l m) = Nat.min (length l) (length m).
Proof.
  revert m. induction l as [| x l IH]; intros [| y m]; cbn; trivial.
  now rewrite IH.
Qed.

Lemma zip_with_map_r {A B C} (f : A -> B -> C) (h : A -> B) (l : list A) :
  Mat.zip_with f l (map h l) = map (fun x => f x (h x)) l.
Proof.
  induction l as [| x l IH]; cbn; trivial. now rewrite IH.
Qed.

Lemma set_nth_length (j : nat) (v : Q) (r : list Q) :
  length (Mat.set_nth j v r) = length r.
Proof.
  revert j. induction r as [| x r IH]; intros [| j]; cbn; trivial.
  now rewrite IH.
Qed.

Lemma set_nth_same (j : nat) (v : Q) (r : list Q) :
  (j < length r)%nat -> nth j (Mat.set_nth j v r) 0 = v.
Proof.
  revert j. induction r as [| x r IH]; intros [| j] Hj; cbn in *; try lia; trivial.
  apply IH. lia.
Qed.

Lemma set_nth_Forall (P : Q -> Prop) (j : nat) (v : Q) (r : list Q) :
  P v -> Forall P r -> Forall P (Mat.set_nth j v r).
Proof.
  intros Hv Hr. revert j.
  induction Hr as [| x r Hx Hr IH]; intros [| j]; cbn; auto.
Qed.

Lemma fill_diagonal_from_length (i : nat) (a : mat) (v : Q) :
  length (Mat.fill_diagonal_from i a v) = length a.
Proof.
  revert i. induction a as [| r a IH]; intro i; cbn; trivial. now rewrite IH.
Qed.

Lemma fill_diagonal_from_row (k i : nat) (a : mat) (v : Q) :
  nth i (Mat.fill_diagonal_from k a v) [] = Mat.set_nth (k + i) v (nth i a []).
Proof.
  revert k i. induction a as [| r a IH]; intros k [| i]; cbn; trivial.
  - now rewrite Nat.add_0_r.
  - rewrite IH. f_equal. lia.
Qed.

Lemma sum_cons (x : Q) (l : list Q) : Py.sum (x :: l) = x + Py.sum l.
Proof. reflexivity. Qed.

Lemma sum_nonneg (l : list Q) : Forall (fun x => 0 <= x) l -> 0 <= Py.sum l.
Proof.
  induction 1 as [| x l Hx Hl IH]; [cbn | rewrite sum_cons]; lra.
Qed.

Lemma sum_upper (c : Q) (l : list Q) :
  Forall (fun x => x <= c) l -> Py.sum l <= inject_Z (Z.of_nat (length l)) * c.
Proof.
  induction 1 as [| x l Hx Hl IH].
  - cbn. change (inject_Z 0) with 0. lra.
  - rewrite sum_cons. cbn [length].
    rewrite Nat2Z.inj_succ, <- Z.add_1_r, inject_Z_plus.
    change (inject_Z 1) with 1. lra.
Qed.

Lemma sum_lower (c : Q) (l : list Q) :
  Forall (fun x => c <= x) l -> inject_Z (Z.of_nat (length l)) * c <= Py.sum l.
Proof.
  induction 1 as [| x l Hx Hl IH].
  - cbn. change (inject_Z 0) with 0. lra.
  - rewrite sum_cons. cbn [length].
    rewrite Nat2Z.inj_succ, <- Z.add_1_r, inject_Z_plus.
    change (inject_Z 1) with 1. lra.
Qed.

Lemma sum_member_le (l : list Q) (x : Q) :
  Forall (fun y => 0 <= y) l -> In x l -> x <= Py.sum l.
Proof.
  induction 1 as [| y l Hy Hl IH]; intros Hin; [contradiction |].
  rewrite sum_cons.
  pose proof (sum_nonneg l Hl). destruct Hin as [-> | Hin].
  - lra.
  - specialize (IH Hin). lra.
Qed.

Lemma sum_map_scale (c : Q) (l : list Q) :
  Py.sum (map (fun x => x * c) l) == Py.sum l * c.
Proof.
  induction l as [| x l IH]; cbn [map].
  - cbn. ring.
  - rewrite !sum_cons, IH. ring.
Qed.

Lemma sum_map_div (d : Q) (l : list Q) :
  Py.sum (map (fun x => x / d) l) == Py.sum l / d.
Proof. unfold Qdiv. apply sum_map_scale. Qed.

Lemma length_positive_inject (A : Type) (l : list A) :
  l <> [] -> 0 < inject_Z (Z.of_nat (length l)).
Proof.
  intro Hl. destruct l as [| x l]; [contradiction |].
  change 0 with (inject_Z 0). rewrite <- Zlt_Qlt. cbn [length]. lia.
Qed.

Lemma mean_defined (l : list Q) :
  l <> [] -> Py.mean l = Ok (Py.sum l / inject_Z (Z.of_nat (length l))).
Proof.
  intro Hl. destruct l; [contradiction | reflexivity].
Qed.

Lemma mean_bounds (lo hi : Q) (l : list Q) :
  l <> [] -> Forall (fun x => lo <= x <= hi) l ->
  lo <= Py.sum l / inject_Z (Z.of_nat (length l)) <= hi.
Proof.
  intros Hl Hall. pose proof (length_positive_inject _ l Hl) as Hn.
  assert (Hlo : inject_Z (Z.of_nat (length l)) * lo <= Py.sum l).
  { apply sum_lower. eapply Forall_impl; [| exact Hall]. cbn. intros x Hx. lra. }
  assert (Hhi : Py.sum l <= inject_Z (Z.of_nat (length l)) * hi).
  { apply sum_upper. eapply Forall_impl; [| exact Hall]. cbn. intros x Hx. lra. }
  split.
  - apply Qle_shift_div_l; trivial. lra.
  - apply Qle_shift_div_r; trivial. lra.
Qed.

Lemma mean_positive (l : list Q) :
  l <> [] -> Forall (fun x => 0 < x) l ->
  0 < Py.sum l / inject_Z (Z.of_nat (length l)).
Proof.
  intros Hl Hall. pose proof (length_positive_inject _ l Hl) as Hn.
  apply Qlt_shift_div_l; trivial.
  destruct Hall as [| x l Hx Hall]; [contradiction |].
  rewrite sum_cons.
  assert (0 <= Py.sum l).
  { apply sum_nonneg. eapply Forall_impl; [| exact Hall]. cbn. intros y Hy. lra. }
  lra.
Qed.

Lemma map_nth_rows {A} (f : list A -> list A) (a : list (list A)) (i : nat) :
  f [] = [] -> nth i (map f a) [] = f (nth i a []).
Proof.
  intro Hf. rewrite <- Hf at 1. apply map_nth.
Qed.

Lemma nth_map_default (f : Q -> Q) (r : list Q) (i : nat) :
  (i < length r)%nat -> nth i (map f r) 0 = f (nth i r 0).
Proof.
  intro Hi. rewrite (nth_indep _ 0 (f 0)) by now rewrite length_map.
  apply map_nth.
Qed.

(** ** The reaction network builder *)

Lemma masked_weight_unit (x : Q) (b : bool) :
  unit_interval x -> unit_interval (x * Mat.of_bool b).
Proof.
  unfold unit_interval. intros [Hlo Hhi]. destruct b; cbn [Mat.of_bool]; lra.
Qed.

Lemma mask_row_unit (r : list Q) (m : list bool) :
  Forall unit_interval r ->
  Forall unit_interval (Mat.zip_with (fun x b => x * Mat.of_bool b) r m).
Proof.
  intro Hr. revert m.
  induction Hr as [| x r Hx Hr IH]; intros [| b m]; cbn; constructor.
  - now apply masked_weight_unit.
  - apply IH.
Qed.

Lemma mul_mask_shape (n : nat) (a u : mat) (dens : Q) :
  unit_rows n a -> unit_rows n u -> length a = length u ->
  unit_rows n (Mat.mul_mask a (map (map (fun x => Py.ltb x dens)) u)) /\
  length (Mat.mul_mask a (map (map (fun x => Py.ltb x dens)) u)) = length a.
Proof.
  unfold Mat.mul_mask, unit_rows. intros Ha. revert u.
  induction Ha as [| r a [Hlen Hr] Ha IH]; intros [| s u] Hu Hl; cbn in *;
    try discriminate; [split; trivial |].
  apply Forall_cons_iff in Hu. destruct Hu as [[Hslen _] Hu].
  destruct (IH u Hu) as [IH1 IH2]; [lia |].
  split; [constructor; [split |] | now rewrite IH2]; trivial.
  - rewrite zip_with_length, length_map. lia.
  - now apply mask_row_unit.
Qed.

Lemma reaction_network_row (adj u : mat) (dens : Q) (i : nat) :
  nth i (reaction_network_of adj u dens) [] = normalised (kept_row adj u dens i).
Proof.
  unfold kept_row, reaction_network_of, Mat.div_rows, Mat.fill_diagonal.
  rewrite zip_with_map_r.
  rewrite (map_nth_rows (fun r => map (fun x => x / (Py.sum r + 1e-12)) r))
    by reflexivity.
  now rewrite fill_diagonal_from_row.
Qed.

Lemma reaction_network_length (adj u : mat) (dens : Q) :
  length adj = length u ->
  length (reaction_network_of adj u dens) = length adj.
Proof.
  intro Hl. unfold reaction_network_of, Mat.div_rows, Mat.fill_diagonal.
  rewrite zip_with_map_r, length_map, fill_diagonal_from_length.
  unfold Mat.mul_mask. rewrite zip_with_length, length_map. lia.
Qed.

Lemma guard12_positive : 0 < 1e-12.
Proof. reflexivity. Qed.

Lemma guard_positive (S : Q) : 0 <= S -> 0 < S + 1e-12.
Proof. intro HS. pose proof guard12_positive. lra. Qed.

Lemma normalised_facts (r : list Q) :
  Forall unit_interval r ->
  length (normalised r) = length r /\
  Forall unit_interval (normalised r) /\
  Py.sum (normalised r) == Py.sum r / (Py.sum r + 1e-12).
Proof.
  intro Hr.
  assert (Hnn : Forall (fun y => 0 <= y) r).
  { eapply Forall_impl; [| exact Hr]. intros y [Hy _]. exact Hy. }
  pose proof (sum_nonneg r Hnn) as HS.
  pose proof (guard_positive _ HS) as Hd.
  unfold normalised. split; [apply length_map |]. split; [| apply sum_map_div].
  apply Forall_forall. intros y Hy. apply in_map_iff in Hy.
  destruct Hy as [x [<- Hx]].
  pose proof (sum_member_le r x Hnn Hx) as Hle.
  rewrite Forall_forall in Hnn. specialize (Hnn x Hx). split.
  - apply Qle_shift_div_l; trivial. lra.
  - apply Qlt_shift_div_r; trivial. pose proof guard12_positive. lra.
Qed.

Lemma unit_rows_nth (n : nat) (a : mat) (i : nat) :
  unit_rows n a -> (i < length a)%nat ->
  length (nth i a []) = n /\ Forall unit_interval (nth i a []).
Proof.
  unfold unit_rows. intros Ha Hi. rewrite Forall_forall in Ha.
  apply Ha. now apply nth_In.
Qed.

Lemma one_minus_ratio (S e : Q) :
  ~ S + e == 0 -> 1 - S / (S + e) == e / (S + e).
Proof. intro Hz. field. exact Hz. Qed.

Section Network.

Context {G : Type} {gen : Generator G}.

Lemma random_row_spec (n : nat) (g : G) :
  length (fst (random_row n g)) = n /\
  Forall unit_interval (fst (random_row n g)).
Proof.
  revert g. induction n as [| n IH]; intro g; cbn [random_row].
  - split; [reflexivity | constructor].
  - pose proof (rng_random_unit g) as Hx.
    destruct (rng_random g) as [x g1]. specialize (IH g1).
    destruct (random_row n g1) as [r g2]. cbn [fst length] in *.
    destruct IH as [IH1 IH2]. split; [now rewrite IH1 | now constructor].
Qed.

Lemma random_rows_spec (m n : nat) (g : G) :
  length (fst (random_rows m n g)) = m /\
  unit_rows n (fst (random_rows m n g)).
Proof.
  revert g. induction m as [| m IH]; intro g; cbn [random_rows].
  - split; [reflexivity | constructor].
  - pose proof (random_row_spec n g) as Hr.
    destruct (random_row n g) as [r g1]. specialize (IH g1).
    destruct (random_rows m n g1) as [a g2]. cbn [fst length] in *.
    destruct IH as [IH1 IH2]. split; [now rewrite IH1 | now constructor].
Qed.

Lemma random_matrix_defined (n : Z) (g : G) :
  (0 <= n)%Z ->
  exists a g', random_matrix n g = Ok (a, g') /\
    length a = Z.to_nat n /\ unit_rows (Z.to_nat n) a.
Proof.
  intro Hn. unfold random_matrix.
  destruct (n <? 0)%Z eqn:E; [apply Z.ltb_lt in E; lia |].
  pose proof (random_rows_spec (Z.to_nat n) (Z.to_nat n) g) as [H1 H2].
  destruct (random_rows (Z.to_nat n) (Z.to_nat n) g) as [a g'].
  exists a, g'. auto.
Qed.

Lemma random_matrix_negative (n : Z) (g : G) :
  (n < 0)%Z -> random_matrix n g = Raise ValueError.
Proof.
  intro Hn. unfold random_matrix. apply Z.ltb_lt in Hn. now rewrite Hn.
Qed.

Lemma build_reaction_network_defined (n : Z) (dens : Q) (g : G) :
  (0 <= n)%Z ->
  exists a g1 u g',
    random_matrix n g = Ok (a, g1) /\
    random_matrix n g1 = Ok (u, g') /\
    build_reaction_network n dens g = Ok (reaction_network_of a u dens, g') /\
    length a = Z.to_nat n /\ length u = Z.to_nat n /\
    unit_rows (Z.to_nat n) a /\ unit_rows (Z.to_nat n) u.
Proof.
  intro Hn.
  destruct (random_matrix_defined n g Hn) as [a [g1 [Ea [La Ua]]]].
  destruct (random_matrix_defined n g1 Hn) as [u [g2 [Eu [Lu Uu]]]].
  exists a, g1, u, g2. unfold build_reaction_network, bind, ret.
  rewrite Ea, Eu. auto 10.
Qed.


End Network.

(** ** Rhythm and resonance *)

Lemma round_integer (x : Q) (k : Z) : x == inject_Z k -> Py.round x = k.
Proof.
  intro Hx. unfold Py.round.
  rewrite (Qfloor_comp _ _ Hx), Qfloor_Z.
  assert (Hc : Qcompare (x - inject_Z k) (1 # 2) = Lt)
    by (rewrite <- Qlt_alt; lra).
  now rewrite Hc.
Qed.

Lemma max_int_lower (a b : Z) : (a <= Py.max_int a b)%Z.
Proof.
  unfold Py.max_int. destruct (a <? b)%Z eqn:E; [apply Z.ltb_lt in E |]; lia.
Qed.

Lemma max_int_right (a b : Z) : (a <= b)%Z -> Py.max_int a b = b.
Proof.
  intro Hab. unfold Py.max_int.
  destruct (a <? b)%Z eqn:E; trivial. apply Z.ltb_ge in E. lia.
Qed.

Lemma guard9_positive : 0 < 1e-9.
Proof. reflexivity. Qed.

Lemma quotient_nonneg (a b : Q) : 0 <= a -> 0 < b -> 0 <= a / b.
Proof.
  intros Ha Hb. apply Qle_shift_div_l; trivial. lra.
Qed.

(** The value of one loop iteration of [resonance_score] once the three
    divisors are known to be non-zero. *)
Lemma resonance_term_defined (T_internal tol T : Q) :
  0 < T_internal -> 0 < tol -> 0 < T ->
  resonance_term T_internal tol T =
  Ok (Py.max 0
        (1 - Qabs (T / inject_Z (Py.max_int 1 (Py.round (T / T_internal)))
                   - T_internal) / (T + 1e-9) / tol)).
Proof.
  intros Hi Htol HT. unfold resonance_term, obind.
  rewrite div_defined by (intro Hz; lra).
  pose proof (max_int_lower 1 (Py.round (T / T_internal))) as Hk.
  apply inject_Z_ge_1 in Hk.
  rewrite div_defined by (intro Hz; lra).
  pose proof guard9_positive.
  rewrite div_defined by (intro Hz; lra).
  rewrite div_defined by (intro Hz; lra).
  reflexivity.
Qed.

Lemma resonance_term_unit (T_internal tol T : Q) :
  0 < T_internal -> 0 < tol -> 0 < T ->
  exists s, resonance_term T_internal tol T = Ok s /\ 0 <= s <= 1.
Proof.
  intros Hi Htol HT. eexists. split; [now apply resonance_term_defined |].
  pose proof guard9_positive.
  set (q := T / inject_Z _).
  assert (Hm : 0 <= Qabs (q - T_internal) / (T + 1e-9) / tol).
  { apply quotient_nonneg; trivial. apply quotient_nonneg; [apply Qabs_nonneg | lra]. }
  split; [apply max_lower | apply max_upper; lra].
Qed.

Lemma resonance_term_exact (T_internal tol T : Q) (k : Z) :
  0 < T_internal -> 0 < tol -> (1 <= k)%Z -> T == inject_Z k * T_internal ->
  exists s, resonance_term T_internal tol T = Ok s /\ s == 1.
Proof.
  intros Hi Htol Hk HT.
  pose proof (inject_Z_ge_1 k Hk) as Hkq.
  assert (HTpos : 0 < T).
  { rewrite HT. apply Qmult_lt_0_compat; lra. }
  eexists. split; [now apply resonance_term_defined |].
  assert (Hr : T / T_internal == inject_Z k).
  { rewrite HT. field. intro Hz. lra. }
  rewrite (round_integer _ _ Hr), (max_int_right 1 k Hk).
  assert (Hq : T / inject_Z k - T_internal == 0).
  { rewrite HT. field. intro Hz. lra. }
  set (m := Qabs (T / inject_Z k - T_internal) / (T + 1e-9) / tol).
  assert (Hm : m == 0).
  { unfold m. rewrite Hq. change (Qabs 0) with 0. unfold Qdiv. ring. }
  destruct (max_cases 0 (1 - m)) as [[_ ->] | [Hle _]]; lra.
Qed.

Lemma resonance_scores_all (P : Q -> Prop) (T_internal tol : Q) (ext : list Q) :
  Forall (fun T => exists s, resonance_term T_internal tol T = Ok s /\ P s) ext ->
  exists ss,
    resonance_scores T_internal tol ext = Ok ss /\
    length ss = length ext /\ Forall P ss.
Proof.
  induction 1 as [| T ext [s [Es Ps]] _ [ss [Ess [Ls Pss]]]]; cbn [resonance_scores].
  - exists []. auto.
  - exists (s :: ss). rewrite Es, Ess. cbn. auto.
Qed.

Lemma resonance_score_mean (P : Q -> Prop) (lo hi T_internal tol : Q) (ext : list Q) :
  (forall s, P s -> lo <= s <= hi) ->
  ext <> [] ->
  Forall (fun T => exists s, resonance_term T_internal tol T = Ok s /\ P s) ext ->
  exists r, resonance_score T_internal ext tol = Ok r /\ lo <= r <= hi.
Proof.
  intros HP Hne Hall.
  destruct (resonance_scores_all P _ _ _ Hall) as [ss [Ess [Ls Pss]]].
  assert (Hss : ss <> []).
  { intros ->. destruct ext; [contradiction | discriminate]. }
  unfold resonance_score, obind. rewrite Ess, (mean_defined ss Hss).
  eexists. split; [reflexivity |].
  apply mean_bounds; trivial.
  eapply Forall_impl; [| exact Pss]. exact HP.
Qed.

Lemma resonance_score_unit (T_internal tol : Q) (ext : list Q) :
  0 < T_internal -> 0 < tol -> ext <> [] -> Forall (fun T => 0 < T) ext ->
  exists r, resonance_score T_internal ext tol = Ok r /\ 0 <= r <= 1.
Proof.
  intros Hi Htol Hne Hpos.
  apply (resonance_score_mean (fun s => 0 <= s <= 1)); trivial.
  eapply Forall_impl; [| exact Hpos].
  intros T HT. now apply resonance_term_unit.
Qed.

Lemma resonance_term_nonneg (T_internal tol T s : Q) :
  resonance_term T_internal tol T = Ok s -> 0 <= s.
Proof.
  unfold resonance_term, obind. intro E.
  destruct (Py.div T T_internal) as [r |]; [| discriminate].
  destruct (Py.div T _) as [q |]; [| discriminate].
  destruct (Py.div (Qabs _) _) as [m |]; [| discriminate].
  destruct (Py.div m tol) as [x |]; [| discriminate].
  injection E as <-. apply max_lower.
Qed.

Lemma resonance_scores_inversion (T_internal tol : Q) (ext ss : list Q) :
  resonance_scores T_internal tol ext = Ok ss ->
  Forall2 (fun T s => resonance_term T_internal tol T = Ok s) ext ss.
Proof.
  revert ss. induction ext as [| T ext IH]; intros ss E; cbn in E.
  - injection E as <-. constructor.
  - unfold obind in E.
    destruct (resonance_term T_internal tol T) as [s |] eqn:Et; [| discriminate].
    destruct (resonance_scores T_internal tol ext) as [ss' |]; [| discriminate].
    injection E as <-. constructor; auto.
Qed.

Lemma resonance_score_inversion (T_internal tol r : Q) (ext : list Q) :
  resonance_score T_internal ext tol = Ok r ->
  exists ss,
    Forall2 (fun T s => resonance_term T_internal tol T = Ok s) ext ss /\
    ss <> [] /\ r = Py.sum ss / inject_Z (Z.of_nat (length ss)).
Proof.
  unfold resonance_score, obind. intro E.
  destruct (resonance_scores T_internal tol ext) as [ss |] eqn:Es; [| discriminate].
  exists ss. split; [now apply resonance_scores_inversion |].
  destruct ss as [| s ss]; [discriminate |].
  split; [discriminate |]. cbn in E. now injection E as <-.
Qed.

Lemma resonance_score_nonneg (T_internal tol r : Q) (ext : list Q) :
  resonance_score T_internal ext tol = Ok r -> 0 <= r.
Proof.
  intro E. destruct (resonance_score_inversion _ _ _ _ E) as [ss [Hall [Hne ->]]].
  apply quotient_nonneg; [| now apply length_positive_inject].
  apply sum_nonneg. clear Hne E.
  induction Hall as [| T s ext ss Ht _ IH]; constructor; trivial.
  now apply (resonance_term_nonneg _ _ _ _ Ht).
Qed.

Lemma resonance_term_range (T_internal tol T s : Q) :
  0 < tol -> 0 < T ->
  resonance_term T_internal tol T = Ok s -> 0 <= s <= 1.
Proof.
  intros Htol HT E. unfold resonance_term, obind in E.
  destruct (Py.div T T_internal) as [r |]; [| discriminate].
  destruct (Py.div T _) as [q |]; [| discriminate].
  pose proof guard9_positive as Hg.
  rewrite (div_defined _ (T + 1e-9)) in E by (intro Hz; lra).
  rewrite (div_defined _ tol) in E by (intro Hz; lra).
  apply Ok_injective in E. subst s.
  assert (Hm : 0 <= Qabs (q - T_internal) / (T + 1e-9) / tol).
  { apply quotient_nonneg; trivial. apply quotient_nonneg; [apply Qabs_nonneg | lra]. }
  split; [apply max_lower | apply max_upper; lra].
Qed.

Lemma resonance_score_unit_returned (T_internal tol r : Q) (ext : list Q) :
  0 < tol -> Forall (fun T => 0 < T) ext ->
  resonance_score T_internal ext tol = Ok r -> 0 <= r <= 1.
Proof.
  intros Htol Hpos E.
  destruct (resonance_score_inversion _ _ _ _ E) as [ss [Hall [Hne ->]]].
  apply mean_bounds; trivial. clear Hne E. revert Hpos.
  induction Hall as [| T s ext ss Ht _ IH]; intro Hpos; constructor.
  - apply Forall_cons_iff in Hpos.
    exact (resonance_term_range _ _ _ _ Htol (proj1 Hpos) Ht).
  - apply IH. now apply Forall_cons_iff in Hpos.
Qed.

Lemma resonance_score_multiples (T_internal tol : Q) (ext : list Q) :
  0 < T_internal -> 0 < tol -> ext <> [] ->
  Forall (fun T => exists k : Z, (1 <= k)%Z /\ T == inject_Z k * T_internal) ext ->
  exists r, resonance_score T_internal ext tol = Ok r /\ r == 1.
Proof.
  intros Hi Htol Hne Hmul.
  destruct (resonance_score_mean (fun s => s == 1) 1 1 T_internal tol ext)
    as [r [Er Hr]]; trivial.
  - intros s Hs. rewrite Hs. lra.
  - eapply Forall_impl; [| exact Hmul].
    intros T [k [Hk HT]]. now apply (resonance_term_exact _ _ _ k).
  - exists r. split; trivial. lra.
Qed.

(** C6, as amended.  When every external period is an exact multiple
    [k * T_internal] of the (positive) internal period, with [k] a
    positive integer below [2 ** 1024], [resonance_score] returns 1: each
    per-period mismatch is 0, so each score is 1, and so is their mean.
    The period list is non-empty and the tolerance positive, as the data
    model has them.  The bound on [k] is what keeps the quotient
    [T / T_internal] a finite float, so that [round] accepts it; the
    exact layer has no largest number, and the statement is the one that
    carries over to binary64, where such a quotient, its rounding, the
    quotient [T / k] and the zero mismatch are all computed without
    error. *)
Theorem resonance_score_exact (T_internal tol : Q) (ext : list Q) :
  0 < T_internal -> 0 < tol -> ext <> [] ->
  Forall (fun T => exists k : Z,
              (1 <= k < 2 ^ 1024)%Z /\ T == inject_Z k * T_internal) ext ->
  exists r, resonance_score T_internal ext tol = Ok r /\ r == 1.
Proof.
  intros Hi Htol Hne Hmul. apply resonance_score_multiples; trivial.
  eapply Forall_impl; [| exact Hmul].
  intros T [k [[Hk _] HT]]. now exists k.
Qed.

Lemma inner_period_positive (ext : list Q) (eta : Q) :
  0 < eta -> ext <> [] -> Forall (fun T => 0 < T) ext ->
  exists T_int, inner_period ext eta 2 = Ok T_int /\ 0 < T_int.
Proof.
  intros Heta Hne Hpos. unfold inner_period.
  assert (Hm : map (fun T => T * eta ^ 2) ext <> []).
  { destruct ext; [contradiction | discriminate]. }
  rewrite (mean_defined _ Hm). eexists. split; [reflexivity |].
  apply mean_positive; trivial.
  apply Forall_forall. intros y Hy. apply in_map_iff in Hy.
  destruct Hy as [T [<- HT]]. rewrite Forall_forall in Hpos.
  specialize (Hpos T HT). apply Qmult_lt_0_compat; trivial.
  change (eta ^ 2) with (eta * eta). now apply Qmult_lt_0_compat.
Qed.

(** ** The trial orchestrator *)

(** In exact arithmetic, and for a threshold of at most 1, the test the
    code makes on [1 - fidelity] is the test on the effective error.  In
    binary64 the two differ within a rounding error of the threshold. *)
Lemma error_gate_iff (cl al : Z) (be mf crit : Q) :
  crit <= 1 ->
  Py.ltb (1 - replication_fidelity cl al be mf) crit = true <->
  effective_error cl be mf < crit.
Proof.
  intro Hcrit. rewrite ltb_true_iff. unfold replication_fidelity.
  destruct (max_cases 0 (1 - effective_error cl be mf)) as [[Hlt ->] | [Hle ->]];
    split; intro Hg; lra.
Qed.

Lemma mul_length (a b : mat) : length (Mat.mul a b) = length a.
Proof. unfold Mat.mul. apply length_map. Qed.

Lemma loop_matrix_length (adj : mat) :
  length (Mat.diag (Mat.power3
            (Mat.add adj (Mat.scale (Mat.eye (length adj)) 1e-6)))) = length adj.
Proof.
  unfold Mat.diag, Mat.power3. rewrite length_map, length_seq, !mul_length.
  unfold Mat.add, Mat.scale, Mat.eye.
  rewrite zip_with_length, !length_map, length_seq. lia.
Qed.

Section Trial.

Context {G : Type} {gen : Generator G} {num : Numeric}.

Lemma evaluate_cycle_coherence_defined (adj : mat) (energy leak noise : Q) :
  adj <> [] ->
  exists coherence has_cycle,
    evaluate_cycle_coherence adj energy leak noise = Ok (coherence, has_cycle).
Proof.
  intro Hne. unfold evaluate_cycle_coherence, obind.
  destruct (spectral_radius_defined adj Hne) as [rho ->].
  rewrite mean_defined; [eauto |].
  intro Hd. apply (f_equal (@length Q)) in Hd.
  rewrite loop_matrix_length in Hd. destruct adj; [contradiction | discriminate].
Qed.

Lemma environment_defined (p : Params) (g : G) :
  exists energy noise leak g',
    environment p g = Ok ((energy, noise, leak), g') /\ 0 <= noise /\ 0 <= leak.
Proof.
  unfold environment, bind, normal, ret.
  destruct (rng_normal 0 0.1 g) as [z1 g1].
  destruct (rng_normal 0 0.2 g1) as [z2 g2].
  destruct (rng_normal 0 0.25 g2) as [z3 g3].
  do 4 eexists. split; [reflexivity |]. split; apply max_lower.
Qed.

Lemma rhythms_no_field (p : Params) (g : G) :
  mode p = "no_field"%string ->
  rhythms p g =
  Ok ((Py.max 0.05 (fst (rng_random g) * 2), 0, 0.05), snd (rng_random g)).
Proof.
  intro Hm. unfold rhythms, bind, random, ret. rewrite Hm.
  change (String.eqb "no_field" "no_field") with true. cbv beta iota.
  now destruct (rng_random g).
Qed.

Lemma rhythms_field (p : Params) (g : G) :
  well_formed p -> mode p = "field"%string ->
  exists T_int reson,
    rhythms p g = Ok ((T_int, reson, 0.2 + 0.6 * reson), g) /\
    inner_period (ext_periods p) (f_eta p) 2 = Ok T_int /\
    resonance_score T_int (ext_periods p) (resonance_tolerance p) = Ok reson /\
    0 < T_int /\ 0 <= reson <= 1.
Proof.
  intros Hwf Hm.
  destruct (inner_period_positive (ext_periods p) (f_eta p)) as [T [ET HT]];
    try apply Hwf.
  destruct (resonance_score_unit T (resonance_tolerance p) (ext_periods p))
    as [r [Er Hr]]; trivial; try apply Hwf.
  exists T, r. unfold rhythms, bind, lift, ret. rewrite Hm.
  change (String.eqb "field" "no_field") with false. cbv beta iota.
  rewrite ET, Er. auto.
Qed.

Lemma rhythms_defined (p : Params) (g : G) :
  well_formed p ->
  exists T_int reson mod_factor g',
    rhythms p g = Ok ((T_int, reson, mod_factor), g') /\
    0 < T_int /\ 0 <= reson <= 1 /\ 0 <= mod_factor <= 0.8.
Proof.
  intro Hwf. destruct (wf_mode p Hwf) as [Hm | Hm].
  - rewrite (rhythms_no_field p g Hm). do 4 eexists. split; [reflexivity |].
    pose proof (max_lower 0.05 (fst (rng_random g) * 2)). lra.
  - destruct (rhythms_field p g Hwf Hm) as [T [r [E [_ [_ [HT Hr]]]]]].
    exists T, r, (0.2 + 0.6 * r), g. split; [exact E |]. lra.
Qed.

Lemma invariant_I_defined (coherence T_int : Q) :
  0 < T_int -> invariant_I coherence T_int = Ok (coherence / (T_int + 1e-9)).
Proof.
  intro HT. unfold invariant_I. pose proof guard9_positive.
  apply div_defined. intro Hz. lra.
Qed.

(** What [run_trial] returns once its five steps have returned. *)
Lemma run_trial_steps (p : Params) (g g1 g2 g3 : G) (adj : mat)
      (energy noise leak T_int reson mod_factor coherence Ival : Q)
      (has_cycle : bool) :
  build_reaction_network (n_species p) (density p) g = Ok (adj, g1) ->
  environment p g1 = Ok ((energy, noise, leak), g2) ->
  rhythms p g2 = Ok ((T_int, reson, mod_factor), g3) ->
  evaluate_cycle_coherence adj energy leak noise = Ok (coherence, has_cycle) ->
  invariant_I coherence T_int = Ok Ival ->
  run_trial p g =
  Ok ((Py.ltb 0.5 (membrane_stability (membrane_threshold p) energy noise)
         && has_cycle
         && Py.ltb (1 - replication_fidelity (code_length p) (alphabet p)
                          (base_error_rate p) mod_factor)
                   (crit_error_threshold p),
       {| m_coherence := coherence;
          m_fidelity := replication_fidelity (code_length p) (alphabet p)
                          (base_error_rate p) mod_factor;
          m_I := Ival;
          m_membrane_stability :=
            membrane_stability (membrane_threshold p) energy noise;
          m_T_internal := T_int;
          m_resonance := reson |}), g3).
Proof.
  intros Eb Ee Er Ec Ei. unfold run_trial, bind, lift, ret.
  now rewrite Eb, Ee, Er, Ec, Ei.
Qed.

(** Conversely, a trial that returned went through the rhythm step, and
    its metrics carry the resonance and fidelity computed there. *)
Lemma run_trial_inversion (p : Params) (g g' : G) (success : bool) (m : Metrics) :
  run_trial p g = Ok ((success, m), g') ->
  exists g2 T_int reson mod_factor,
    rhythms p g2 = Ok ((T_int, reson, mod_factor), g') /\
    m_T_internal m = T_int /\ m_resonance m = reson /\
    m_fidelity m = replication_fidelity (code_length p) (alphabet p)
                     (base_error_rate p) mod_factor.
Proof.
  unfold run_trial, bind, lift, ret. intro E.
  destruct (build_reaction_network (n_species p) (density p) g)
    as [[adj g1] |]; [| discriminate].
  destruct (environment p g1) as [[[[energy noise] leak] g2] |]; [| discriminate].
  destruct (rhythms p g2) as [[[[T_int reson] mod_factor] g3] |] eqn:Er;
    [| discriminate].
  destruct (evaluate_cycle_coherence adj energy leak noise)
    as [[coherence has_cycle] |]; [| discriminate].
  destruct (invariant_I coherence T_int) as [Ival |]; [| discriminate].
  injection E as _ <- <-.
  exists g2, T_int, reson, mod_factor. cbn. auto.
Qed.

(** Every step of a trial that returned, and the value it returned. *)
Lemma run_trial_inversion_steps (p : Params) (g g' : G) (success : bool) (m : Metrics) :
  run_trial p g = Ok ((success, m), g') ->
  exists adj g1 energy noise leak g2 T_int reson mod_factor coherence has_cycle Ival,
    build_reaction_network (n_species p) (density p) g = Ok (adj, g1) /\
    environment p g1 = Ok ((energy, noise, leak), g2) /\
    rhythms p g2 = Ok ((T_int, reson, mod_factor), g') /\
    evaluate_cycle_coherence adj energy leak noise = Ok (coherence, has_cycle) /\
    invariant_I coherence T_int = Ok Ival /\
    success =
      Py.ltb 0.5 (membrane_stability (membrane_threshold p) energy noise)
      && has_cycle
      && Py.ltb (1 - replication_fidelity (code_length p) (alphabet p)
                       (base_error_rate p) mod_factor)
                (crit_error_threshold p) /\
    m = {| m_coherence := coherence;
           m_fidelity := replication_fidelity (code_length p) (alphabet p)
                           (base_error_rate p) mod_factor;
           m_I := Ival;
           m_membrane_stability :=
             membrane_stability (membrane_threshold p) energy noise;
           m_T_internal := T_int;
           m_resonance := reson |}.
Proof.
  unfold run_trial, bind, lift, ret. intro E.
  destruct (build_reaction_network (n_species p) (density p) g)
    as [[adj g1] |] eqn:Eb; [| discriminate].
  destruct (environment p g1) as [[[[energy noise] leak] g2] |] eqn:Ee;
    [| discriminate].
  destruct (rhythms p g2) as [[[[T_int reson] mod_factor] g3] |] eqn:Er;
    [| discriminate].
  destruct (evaluate_cycle_coherence adj energy leak noise)
    as [[coherence has_cycle] |] eqn:Ec; [| discriminate].
  destruct (invariant_I coherence T_int) as [Ival |] eqn:Ei; [| discriminate].
  apply Ok_injective in E.
  pose proof (f_equal snd E) as Eg. cbv beta iota delta [snd] in Eg. subst g3.
  pose proof (f_equal (fun x => fst (fst x)) E) as Es.
  cbv beta iota delta [fst] in Es.
  pose proof (f_equal (fun x => snd (fst x)) E) as Em.
  cbv beta iota delta [fst snd] in Em.
  exists adj, g1, energy, noise, leak, g2, T_int, reson, mod_factor,
    coherence, has_cycle, Ival.
  repeat (split; [reflexivity || assumption |]).
  split; [exact (eq_sym Es) | exact (eq_sym Em)].
Qed.

Lemma rhythms_no_field_shape (p : Params) (g g' : G) (T_int reson mod_factor : Q) :
  mode p = "no_field"%string ->
  rhythms p g = Ok ((T_int, reson, mod_factor), g') ->
  reson = 0 /\ mod_factor = 0.05 /\ 0.05 <= T_int < 2.
Proof.
  intros Hm E. rewrite (rhythms_no_field p g Hm) in E.
  apply Ok_injective in E.
  assert (ET : T_int = Py.max 0.05 (fst (rng_random g) * 2)) by congruence.
  assert (Er : reson = 0) by congruence.
  assert (Em : mod_factor = 0.05) by congruence.
  split; [exact Er |]. split; [exact Em |]. subst T_int.
  pose proof (rng_random_unit g) as [Hlo Hhi].
  split; [apply max_lower | apply Qle_lt_trans with (Py.max 0.05 (fst (rng_random g) * 2))].
  - apply Qle_refl.
  - destruct (max_cases 0.05 (fst (rng_random g) * 2)) as [[_ ->] | [_ ->]]; lra.
Qed.

Lemma rhythms_field_shape (p : Params) (g g' : G) (T_int reson mod_factor : Q) :
  mode p <> "no_field"%string ->
  rhythms p g = Ok ((T_int, reson, mod_factor), g') ->
  inner_period (ext_periods p) (f_eta p) 2 = Ok T_int /\
  resonance_score T_int (ext_periods p) (resonance_tolerance p) = Ok reson /\
  mod_factor = 0.2 + 0.6 * reson /\ 0 <= reson /\ g' = g.
Proof.
  intros Hm E. apply String.eqb_neq in Hm.
  unfold rhythms, bind, lift, ret in E. rewrite Hm in E.
  destruct (inner_period (ext_periods p) (f_eta p) 2) as [T |]; [| discriminate].
  destruct (resonance_score T (ext_periods p) (resonance_tolerance p))
    as [r |] eqn:Er; [| discriminate].
  apply Ok_injective in E.
  assert (ET : T = T_int) by congruence. subst T.
  assert (Err : r = reson) by congruence. subst r.
  split; [reflexivity |]. split; [exact Er |].
  split; [congruence |]. split; [| congruence].
  now apply (resonance_score_nonneg _ _ _ _ Er).
Qed.

(** On the exact layer a well-formed configuration never makes a step of
    the trial fail.  In binary64 the rhythm step needs, besides, that
    [f_eta ** 2] does not underflow to zero and that no quotient
    [T / T_internal] overflows; the configurations of the stress tests,
    for which the lemma is used, are far from both. *)
Lemma run_trial_defined (p : Params) (g : G) :
  well_formed p ->
  exists adj g1 energy noise leak g2 T_int reson mod_factor g3 coherence has_cycle Ival,
    build_reaction_network (n_species p) (density p) g = Ok (adj, g1) /\
    environment p g1 = Ok ((energy, noise, leak), g2) /\
    rhythms p g2 = Ok ((T_int, reson, mod_factor), g3) /\
    evaluate_cycle_coherence adj energy leak noise = Ok (coherence, has_cycle) /\
    invariant_I coherence T_int = Ok Ival.
Proof.
  intro Hwf.
  destruct (build_reaction_network_defined (n_species p) (density p) g)
    as [a [g0 [u [g1 [_ [_ [Eb [La [Lu _]]]]]]]]];
    [pose proof (wf_n_species p Hwf); lia |].
  destruct (environment_defined p g1) as [energy [noise [leak [g2 [Ee _]]]]].
  destruct (rhythms_defined p g2 Hwf) as [T_int [reson [mf [g3 [Er [HT _]]]]]].
  set (adj := reaction_network_of a u (density p)) in *.
  assert (Hadj : adj <> []).
  { intro Hnil. apply (f_equal (@length (list Q))) in Hnil.
    unfold adj in Hnil. rewrite reaction_network_length in Hnil by congruence.
    pose proof (wf_n_species p Hwf). cbn in Hnil. lia. }
  destruct (evaluate_cycle_coherence_defined adj energy leak noise Hadj)
    as [coherence [has_cycle Ec]].
  pose proof (invariant_I_defined coherence T_int HT) as Ei.
  exists adj, g1, energy, noise, leak, g2, T_int, reson, mf, g3, coherence, has_cycle.
  eexists. repeat (split; [eassumption |]). exact Ei.
Qed.

(** C1, as amended.  On every trial that returns, the success flag is
    true exactly when the recorded membrane stability exceeds 0.5, the
    cycle evaluator reported a cycle, and [1 - fidelity] is below
    [crit_error_threshold], where [fidelity] is the value the trial
    records: the replication test reads the clamped fidelity, not the
    effective error, and nothing else enters the flag.  The values
    compared are those of the trial's own steps. *)
Theorem run_trial_success_rule (p : Params) (g g' : G) (success : bool) (m : Metrics) :
  run_trial p g = Ok ((success, m), g') ->
  exists adj g1 energy noise leak g2 T_int reson mod_factor coherence has_cycle,
    build_reaction_network (n_species p) (density p) g = Ok (adj, g1) /\
    environment p g1 = Ok ((energy, noise, leak), g2) /\
    rhythms p g2 = Ok ((T_int, reson, mod_factor), g') /\
    evaluate_cycle_coherence adj energy leak noise = Ok (coherence, has_cycle) /\
    m_membrane_stability m = membrane_stability (membrane_threshold p) energy noise /\
    m_fidelity m =
      replication_fidelity (code_length p) (alphabet p) (base_error_rate p)
        mod_factor /\
    (success = true <->
     0.5 < m_membrane_stability m /\
     has_cycle = true /\
     1 - m_fidelity m < crit_error_threshold p).
Proof.
  intro E.
  destruct (run_trial_inversion_steps _ _ _ _ _ E)
    as (adj & g1 & energy & noise & leak & g2 & T_int & reson & mf & coherence &
        has_cycle & Ival & Eb & Ee & Er & Ec & _ & -> & ->).
  exists adj, g1, energy, noise, leak, g2, T_int, reson, mf, coherence, has_cycle.
  cbn [m_membrane_stability m_fidelity].
  repeat (split; [assumption || reflexivity |]).
  rewrite !andb_true_iff, !ltb_true_iff. tauto.
Qed.

(** C7.  In mode ["no_field"] every trial that [run_trial] returns records
    a resonance of 0 in its metrics. *)
Theorem no_field_resonance_zero (p : Params) (g g' : G) (success : bool) (m : Metrics) :
  mode p = "no_field"%string ->
  run_trial p g = Ok ((success, m), g') ->
  m_resonance m = 0.
Proof.
  intros Hm E.
  destruct (run_trial_inversion p g g' success m E)
    as [g2 [T_int [reson [mf [Er [_ [Hr _]]]]]]].
  rewrite (rhythms_no_field p g2 Hm) in Er. congruence.
Qed.

Lemma effective_error_positive (cl : Z) (be mf : Q) :
  (1 <= cl)%Z -> 0 < be -> mf <= 0.8 -> 0 < effective_error cl be mf.
Proof.
  intros Hcl Hbe Hmf. unfold effective_error.
  pose proof (length_factor_positive cl Hcl) as HA.
  apply Qmult_lt_0_compat; [apply Qmult_lt_0_compat |]; lra.
Qed.

(** C10, as amended.  In mode ["field"], with a non-empty list of positive
    periods and a positive tolerance, every trial that returns records a
    resonance in [0,1], so the modulation factor [0.2 + 0.6 * resonance]
    lies in [0.2, 0.8] and the protection factor [1 - 0.6 * mod_factor] is
    at least 0.52.  For a code length of at least 1 the effective error
    is then strictly positive whenever the base error rate is: the field
    never suppresses it.  The recorded fidelity is the one computed at
    that modulation factor, and it is at most 1. *)
Theorem field_protection_partial (p : Params) (g g' : G) (success : bool) (m : Metrics) :
  mode p = "field"%string ->
  ext_periods p <> [] -> Forall (fun T => 0 < T) (ext_periods p) ->
  0 < resonance_tolerance p -> (1 <= code_length p)%Z ->
  run_trial p g = Ok ((success, m), g') ->
  0 <= m_resonance m <= 1 /\
  0.2 <= 0.2 + 0.6 * m_resonance m <= 0.8 /\
  0.52 <= 1 - 0.6 * (0.2 + 0.6 * m_resonance m) /\
  m_fidelity m =
    replication_fidelity (code_length p) (alphabet p) (base_error_rate p)
      (0.2 + 0.6 * m_resonance m) /\
  (0 <= base_error_rate p -> m_fidelity m <= 1) /\
  (0 < base_error_rate p ->
   0 < effective_error (code_length p) (base_error_rate p)
         (0.2 + 0.6 * m_resonance m)).
Proof.
  intros Hm Hne Hpos Htol Hcl E.
  destruct (run_trial_inversion_steps _ _ _ _ _ E)
    as (adj & g1 & energy & noise & leak & g2 & T_int & reson & mf & coherence &
        has_cycle & Ival & _ & _ & Er & _ & _ & _ & ->).
  assert (Hnf : mode p <> "no_field"%string) by (rewrite Hm; discriminate).
  destruct (rhythms_field_shape _ _ _ _ _ _ Hnf Er) as (_ & Es & -> & _ & _).
  pose proof (resonance_score_unit_returned _ _ _ _ Htol Hpos Es) as Hr.
  cbn [m_resonance m_fidelity].
  split; [exact Hr |]. split; [lra |]. split; [lra |]. split; [reflexivity |].
  split.
  - intro Hbe. unfold replication_fidelity.
    assert (He : 0 <= effective_error (code_length p) (base_error_rate p)
                        (0.2 + 0.6 * reson))
      by (apply effective_error_nonneg; trivial; lra).
    apply max_upper; lra.
  - intro Hbe. apply effective_error_positive; trivial; lra.
Qed.

(** ** The Monte Carlo aggregator *)

(** C2 (the defect).  With [trials = 0] the loop body never runs and the
    unguarded quotient [successes / params.trials] raises
    [ZeroDivisionError]: no [Result] is returned. *)
Theorem run_simulation_zero_trials (p : Params) (g : G) :
  trials p = 0%Z -> run_simulation p g = Raise ZeroDivisionError.
Proof.
  intro Hz. unfold run_simulation, bind, lift, ret. rewrite Hz. reflexivity.
Qed.

Lemma run_trial_returns (p : Params) (g : G) :
  well_formed p -> exists success m g', run_trial p g = Ok ((success, m), g').
Proof.
  intro Hwf.
  destruct (run_trial_defined p g Hwf) as
    [adj [g1 [energy [noise [leak [g2 [T_int [reson [mf [g3 [coherence
      [has_cycle [Ival [Eb [Ee [Er [Ec Ei]]]]]]]]]]]]]]]]].
  do 3 eexists.
  exact (run_trial_steps _ _ _ _ _ _ _ _ _ _ _ _ _ _ _ Eb Ee Er Ec Ei).
Qed.

Lemma trial_loop_returns (p : Params) (k : nat) (t : Tally) (g : G) :
  well_formed p -> exists t' g', trial_loop k p t g = Ok (t', g').
Proof.
  intro Hwf. revert t g. induction k as [| k IH]; intros t g.
  - now exists t, g.
  - destruct (run_trial_returns p g Hwf) as [success [m [g1 E]]].
    cbn [trial_loop]. unfold bind at 1. rewrite E. apply IH.
Qed.

Lemma mean_or_zero_returns (l : list Q) : exists x, mean_or_zero l = Ok x.
Proof.
  destruct l as [| y l]; cbn; eauto.
Qed.

Lemma run_simulation_returns (p : Params) (g : G) :
  well_formed p -> exists r g', run_simulation p g = Ok (r, g').
Proof.
  intro Hwf. unfold run_simulation, bind, lift, ret.
  destruct (trial_loop_returns p (Z.to_nat (trials p)) tally0 g Hwf)
    as [t [g' ->]].
  pose proof (inject_Z_ge_1 _ (wf_trials p Hwf)) as Htr.
  rewrite div_defined by (intro Hz; lra).
  destruct (mean_or_zero_returns (coh_list t)) as [mc ->].
  destruct (mean_or_zero_returns (fid_list t)) as [mf ->].
  destruct (mean_or_zero_returns (I_list t)) as [mi ->].
  eauto.
Qed.

End Trial.

(** ** Runs that see the same draws *)

Section SameDraws.

Context {G1 G2 : Type} {gen1 : Generator G1} {gen2 : Generator G2} {num : Numeric}.

Variable R : G1 -> G2 -> Prop.

Lemma same_run_ret {A} (a : A) : same_run R (ret a) (ret a).
Proof. intros g1 g2 Hg. cbn. auto. Qed.

Lemma same_run_lift {A} (o : outcome A) : same_run R (lift o) (lift o).
Proof. intros g1 g2 Hg. unfold lift. destruct o; cbn; auto. Qed.

Lemma same_run_bind {A B} (c1 : M G1 A) (c2 : M G2 A)
      (k1 : A -> M G1 B) (k2 : A -> M G2 B) :
  same_run R c1 c2 -> (forall a, same_run R (k1 a) (k2 a)) ->
  same_run R (bind c1 k1) (bind c2 k2).
Proof.
  intros Hc Hk g1 g2 Hg. specialize (Hc g1 g2 Hg). unfold bind, same_outcome in *.
  destruct (c1 g1) as [[a1 h1] | e1]; destruct (c2 g2) as [[a2 h2] | e2];
    try contradiction.
  - destruct Hc as [<- Hh]. exact (Hk a1 h1 h2 Hh).
  - exact Hc.
Qed.

Lemma same_run_random : same_draws R -> same_run R random random.
Proof.
  intros HR g1 g2 Hg. destruct (HR g1 g2 Hg) as [[Hv Hs] _].
  unfold random, same_outcome.
  destruct (rng_random g1) as [x1 h1]; destruct (rng_random g2) as [x2 h2].
  cbn in *. auto.
Qed.

Lemma same_run_normal (loc scale : Q) :
  same_draws R -> same_run R (normal loc scale) (normal loc scale).
Proof.
  intros HR g1 g2 Hg. destruct (HR g1 g2 Hg) as [_ Hn].
  destruct (Hn loc scale) as [Hv Hs]. unfold normal, same_outcome.
  destruct (rng_normal loc scale g1) as [x1 h1];
    destruct (rng_normal loc scale g2) as [x2 h2].
  cbn in *. auto.
Qed.

Lemma random_row_same_draws (n : nat) :
  same_draws R ->
  forall g1 g2, R g1 g2 ->
    fst (random_row n g1) = fst (random_row n g2) /\
    R (snd (random_row n g1)) (snd (random_row n g2)).
Proof.
  intro HR. induction n as [| n IH]; intros g1 g2 Hg; cbn [random_row].
  - cbn. auto.
  - destruct (HR g1 g2 Hg) as [[Hv Hs] _].
    destruct (rng_random g1) as [x1 h1]; destruct (rng_random g2) as [x2 h2].
    cbn [fst snd] in Hv, Hs. destruct (IH h1 h2 Hs) as [Hr Hh].
    destruct (random_row n h1) as [r1 k1]; destruct (random_row n h2) as [r2 k2].
    cbn [fst snd] in *. subst. auto.
Qed.

Lemma random_rows_same_draws (m n : nat) :
  same_draws R ->
  forall g1 g2, R g1 g2 ->
    fst (random_rows m n g1) = fst (random_rows m n g2) /\
    R (snd (random_rows m n g1)) (snd (random_rows m n g2)).
Proof.
  intro HR. induction m as [| m IH]; intros g1 g2 Hg; cbn [random_rows].
  - cbn. auto.
  - destruct (random_row_same_draws n HR g1 g2 Hg) as [Hv Hs].
    destruct (random_row n g1) as [x1 h1]; destruct (random_row n g2) as [x2 h2].
    cbn [fst snd] in Hv, Hs. destruct (IH h1 h2 Hs) as [Hr Hh].
    destruct (random_rows m n h1) as [r1 k1];
      destruct (random_rows m n h2) as [r2 k2].
    cbn [fst snd] in *. subst. auto.
Qed.

Lemma same_run_random_matrix (n : Z) :
  same_draws R -> same_run R (random_matrix n) (random_matrix n).
Proof.
  intros HR g1 g2 Hg. unfold random_matrix, same_outcome.
  destruct (n <? 0)%Z; [reflexivity |].
  destruct (random_rows_same_draws (Z.to_nat n) (Z.to_nat n) HR g1 g2 Hg)
    as [Hv Hs].
  destruct (random_rows (Z.to_nat n) (Z.to_nat n) g1) as [a1 h1];
    destruct (random_rows (Z.to_nat n) (Z.to_nat n) g2) as [a2 h2].
  cbn in *. auto.
Qed.

Lemma same_run_trial (p : Params) :
  same_draws R -> same_run R (run_trial p) (run_trial p).
Proof.
  intro HR. unfold run_trial.
  apply same_run_bind.
  { unfold build_reaction_network.
    apply same_run_bind; [now apply same_run_random_matrix | intro a].
    apply same_run_bind; [now apply same_run_random_matrix | intro u].
    apply same_run_ret. }
  intro adj. apply same_run_bind.
  { unfold environment.
    apply same_run_bind; [now apply same_run_normal | intro z1].
    apply same_run_bind; [now apply same_run_normal | intro z2].
    apply same_run_bind; [now apply same_run_normal | intro z3].
    apply same_run_ret. }
  intros [[energy noise] leak]. apply same_run_bind.
  { unfold rhythms. destruct (String.eqb (mode p) "no_field").
    - apply same_run_bind; [now apply same_run_random | intro u].
      apply same_run_ret.
    - apply same_run_bind; [apply same_run_lift | intro T_int].
      apply same_run_bind; [apply same_run_lift | intro reson].
      apply same_run_ret. }
  intros [[T_int reson] mod_factor].
  apply same_run_bind; [apply same_run_lift |].
  intros [coherence has_cycle].
  apply same_run_bind; [apply same_run_lift | intro Ival].
  apply same_run_ret.
Qed.

Lemma same_run_trial_loop (p : Params) (k : nat) :
  same_draws R ->
  forall t, same_run R (trial_loop k p t) (trial_loop k p t).
Proof.
  intro HR. induction k as [| k IH]; intro t; cbn [trial_loop].
  - apply same_run_ret.
  - apply same_run_bind; [now apply same_run_trial |].
    intros [success m]. apply IH.
Qed.


End SameDraws.

(** ** Construction of a configuration *)

(** C3, as amended.  Constructing a [Params] never raises: every argument
    is stored unchanged, and the only processing is that a missing
    [ext_periods] becomes [[1.0; 29.5; 31025.0]].  Zero species, an empty
    period list and a non-positive tolerance are stored as given. *)
Theorem Params_init_stores (a : ParamsArgs) :
  exists p,
    Params_init a = Ok p /\
    n_species p = arg_n_species a /\
    density p = arg_density a /\
    energy_grad p = arg_energy_grad a /\
    noise_level p = arg_noise_level a /\
    tidal_mod_amp p = arg_tidal_mod_amp a /\
    membrane_threshold p = arg_membrane_threshold a /\
    membrane_leak p = arg_membrane_leak a /\
    code_length p = arg_code_length a /\
    alphabet p = arg_alphabet a /\
    base_error_rate p = arg_base_error_rate a /\
    crit_error_threshold p = arg_crit_error_threshold a /\
    f_eta p = arg_f_eta a /\
    ext_periods p =
      match arg_ext_periods a with
      | None => [1; 29.5; 31025]
      | Some l => l
      end /\
    resonance_tolerance p = arg_resonance_tolerance a /\
    trials p = arg_trials a /\
    mode p = arg_mode a.
Proof.
  exists (stored a). unfold Params_init.
  repeat split.
Qed.

(** C3, the claim as stated fails: a configuration with zero species, an
    empty period list and a negative tolerance is constructed without any
    exception. *)
Lemma Params_init_accepts_degenerate :
  ~ (forall a : ParamsArgs,
        (arg_n_species a <= 0)%Z \/ arg_ext_periods a = Some [] \/
        arg_resonance_tolerance a <= 0 ->
        exists e, Params_init a = Raise e).
Proof.
  intro Hclaim.
  destruct (Hclaim degenerate_args) as [e He].
  - left. cbn. lia.
  - discriminate He.
Qed.

(** ** Evaluations on concrete inputs *)


Ltac small_well_formed :=
  constructor; cbn;
  first [ lia | lra | discriminate
        | repeat constructor; reflexivity
        | (left; reflexivity) | (right; reflexivity) ].

Ltac by_computation := vm_compute; first [reflexivity | discriminate].


Ltac returned E := vm_compute in E; discriminate E.

Lemma run_trial_success_rule_witness :
  exists success m g',
    run_trial (small_params "no_field") demo_tape = Ok ((success, m), g') /\
    (success = false \/
     0.5 < m_membrane_stability m /\ 1 - m_fidelity m < 0.04).
Proof.
  destruct (run_trial (small_params "no_field") demo_tape)
    as [[[s m] g'] |] eqn:E; [| returned E].
  exists s, m, g'. split; [reflexivity |].
  destruct (run_trial_success_rule _ _ _ _ _ E)
    as (adj & g1 & energy & noise & leak & g2 & T_int & reson & mf & coherence &
        has_cycle & _ & _ & _ & _ & _ & _ & Hiff).
  destruct s; [right | now left].
  destruct (proj1 Hiff eq_refl) as (Hmem & _ & Hgate). split; assumption.
Defined.

Lemma same_replay_same_draws : same_draws same_replay.
Proof.
  intros t1 t2 [Hu Hd]. split.
  - cbn [rng_random tape_generator]. unfold tape_random.
    destruct (uniforms t1) as [| x1 l1] eqn:E1;
      destruct (uniforms t2) as [| x2 l2] eqn:E2; cbn [map] in Hu;
      try discriminate Hu.
    + cbn [fst snd]. split; [reflexivity |]. split; [now rewrite E1, E2 | exact Hd].
    + cbn [fst snd]. split; [congruence |]. split; cbn; [congruence | exact Hd].
  - intros loc scale. cbn [rng_normal tape_generator]. unfold tape_normal.
    rewrite Hd. destruct (deviates t2) as [| z l] eqn:E2; cbn [fst snd].
    + split; [reflexivity |]. split; [exact Hu | congruence].
    + split; [reflexivity |]. split; cbn; [exact Hu | reflexivity].
Qed.



Lemma run_simulation_zero_trials_witness :
  run_simulation (stored zero_trials_args) demo_tape = Raise ZeroDivisionError.
Proof.
  apply run_simulation_zero_trials. reflexivity.
Defined.


Lemma resonance_score_exact_witness :
  exists r, resonance_score 0.5 [1; 2] 0.08 = Ok r /\ r == 1.
Proof.
  apply resonance_score_exact.
  - reflexivity.
  - reflexivity.
  - discriminate.
  - repeat constructor.
    + exists 2%Z. split; [split; reflexivity || (intro H; discriminate H) | reflexivity].
    + exists 4%Z. split; [split; reflexivity || (intro H; discriminate H) | reflexivity].
Defined.

Lemma no_field_resonance_zero_witness :
  exists success m g',
    run_trial (small_params "no_field") demo_tape = Ok ((success, m), g') /\
    m_resonance m = 0.
Proof.
  do 3 eexists. split; [vm_compute; reflexivity |].
  eapply (no_field_resonance_zero (small_params "no_field") demo_tape).
  - reflexivity.
  - vm_compute. reflexivity.
Defined.

Lemma replication_fidelity_monotone_witness :
  replication_fidelity 64 4 0.03 0.05 <= replication_fidelity 64 4 0.02 0.05 /\
  replication_fidelity 128 4 0.02 0.05 <= replication_fidelity 64 4 0.02 0.05.
Proof.
  destruct (replication_fidelity_monotone 4 0.05) as [Hb Hc].
  - vm_compute. discriminate.
  - split; [apply Hb | apply Hc]; first [lia | vm_compute; discriminate].
Defined.

Lemma replication_fidelity_unit_interval_witness :
  0 <= replication_fidelity 64 4 0.02 0.05 <= 1.
Proof.
  apply replication_fidelity_unit_interval.
  - lia.
  - split; vm_compute; discriminate.
  - split; vm_compute; discriminate.
Defined.

Lemma field_protection_partial_witness :
  exists success m g',
    run_trial (small_params "field") demo_tape = Ok ((success, m), g') /\
    0 <= m_resonance m <= 1 /\ m_fidelity m <= 1.
Proof.
  destruct (run_trial (small_params "field") demo_tape)
    as [[[s m] g'] |] eqn:E; [| returned E].
  exists s, m, g'. split; [reflexivity |].
  assert (Hne : ext_periods (small_params "field") <> []) by discriminate.
  assert (Hpos : Forall (fun T => 0 < T) (ext_periods (small_params "field")))
    by (repeat constructor).
  assert (Htol : 0 < resonance_tolerance (small_params "field")) by reflexivity.
  assert (Hcl : (1 <= code_length (small_params "field"))%Z) by (cbn; lia).
  destruct (field_protection_partial (small_params "field") _ _ _ _
              eq_refl Hne Hpos Htol Hcl E) as (Hr & _ & _ & _ & Hf & _).
  split; [exact Hr |]. apply Hf. cbn. discriminate.
Defined.

(** ** Evaluations in binary64 *)

Section Binary64.

Import PrimFloat.

(** C1, the claim as stated fails.  With the default code length 64 and
    base error rate 0.02 and the no-field modulation factor 0.05 the
    effective error is 0.029099999999999997, below the threshold
    0.02910000000000001; the membrane holds (0.7125 > 0.5) and a cycle is
    present.  But [1.0 - fidelity] is 0.029100000000000015, which is not
    below the threshold, and the verdict is a failure. *)
Lemma run_trial_gate_rounding :
  exists e fidelity Ival,
    B64.effective_error 64 0.02 0.05 = Ok e /\
    (e <? B64.tight_threshold)%float = true /\
    (0.5 <? B64.membrane_stability 0.55 1 0.25)%float = true /\
    B64.verdict (B64.membrane_stability 0.55 1 0.25) true 0.9 1 0.05
      64 4 0.02 B64.tight_threshold = Ok (false, fidelity, Ival).
Proof.
  do 3 eexists. split; [vm_compute; reflexivity |].
  split; [vm_compute; reflexivity |].
  split; vm_compute; reflexivity.
Qed.

(** C6, the claim as stated fails.  The period 1.0 is [2 ** 1060] times
    the internal period [2 ** -1060], an exact positive-integer multiple;
    the quotient [T / T_internal] overflows to infinity and [round] raises
    [OverflowError] in the first iteration, before any score is formed. *)
Lemma resonance_score_overflow :
  exists T T_internal,
    B64.exact 1 = Some T /\ B64.exact B64.tiny_period = Some T_internal /\
    0 < T_internal /\ T == inject_Z (2 ^ 1060) * T_internal /\
    B64.resonance_score B64.tiny_period [1]%float 0.08 = Raise OverflowError.
Proof.
  do 2 eexists. split; [vm_compute; reflexivity |].
  split; [vm_compute; reflexivity |].
  split; [vm_compute; reflexivity |].
  split; vm_compute; reflexivity.
Qed.

(** The bound of the amended C6 is where the overflow sets in: from the
    internal period [2 ** -1022] the period 2.0, [2 ** 1023] times it,
    scores 1, and the period 4.0, [2 ** 1024] times it, overflows. *)
Lemma resonance_score_largest_multiple :
  B64.resonance_score 0x1p-1022 [2]%float 0.08 = Ok 1%float /\
  B64.resonance_score 0x1p-1022 [4]%float 0.08 = Raise OverflowError.
Proof.
  split; vm_compute; reflexivity.
Qed.

(** C10, the claim as stated fails.  At the smallest modulation factor of
    the field branch, 0.2, and a base error rate of 1e-17 the effective
    error is 1.32e-17, strictly positive, and [1.0 - 1.32e-17] rounds to
    1.0: the fidelity is 1, not strictly below it. *)
Lemma field_fidelity_rounds_to_one :
  exists e fidelity,
    (0 <? B64.tiny_error)%float = true /\
    B64.effective_error 64 B64.tiny_error 0.2 = Ok e /\
    (0 <? e)%float = true /\
    B64.replication_fidelity 64 4 B64.tiny_error 0.2 = Ok fidelity /\
    (fidelity <? 1)%float = false /\ (fidelity =? 1)%float = true.
Proof.
  do 2 eexists. split; [vm_compute; reflexivity |].
  split; [vm_compute; reflexivity |].
  split; [vm_compute; reflexivity |].
  split; [vm_compute; reflexivity |].
  split; vm_compute; reflexivity.
Qed.

End Binary64.

(** * Further properties of the core *)

(** ** Membrane stability and replication fidelity *)

(** X1.  [membrane_stability] never decreases when the base threshold or
    the energy gradient grows, and never increases when the noise
    grows. *)
Theorem membrane_stability_monotone (b1 b2 e1 e2 n1 n2 : Q) :
  b1 <= b2 -> e1 <= e2 -> n2 <= n1 ->
  membrane_stability b1 e1 n1 <= membrane_stability b2 e2 n2.
Proof.
  unfold membrane_stability. intros Hb He Hn. lra.
Qed.

Lemma effective_error_antitone_mod (cl : Z) (be m1 m2 : Q) :
  (1 <= cl)%Z -> 0 <= be -> m1 <= m2 ->
  effective_error cl be m2 <= effective_error cl be m1.
Proof.
  intros Hcl Hbe Hm. unfold effective_error.
  pose proof (length_factor_positive cl Hcl) as HA.
  rewrite !(Qmult_comm (be * _)).
  apply Qmult_le_compat_r; [lra |].
  apply Qmult_le_0_compat; lra.
Qed.

Lemma replication_fidelity_mod_le (cl al : Z) (be m1 m2 : Q) :
  (1 <= cl)%Z -> 0 <= be -> m1 <= m2 ->
  replication_fidelity cl al be m1 <= replication_fidelity cl al be m2.
Proof.
  intros Hcl Hbe Hm. apply fidelity_antitone.
  now apply effective_error_antitone_mod.
Qed.

(** X2.  For a code length of at least 1 and a non-negative base error,
    [replication_fidelity] never decreases when the modulation factor
    grows: more resonance never costs fidelity. *)
Theorem replication_fidelity_monotone_mod (cl al : Z) (be m1 m2 : Q) :
  (1 <= cl)%Z -> 0 <= be -> m1 <= m2 ->
  replication_fidelity cl al be m1 <= replication_fidelity cl al be m2.
Proof.
  intros Hcl Hbe Hm. now apply replication_fidelity_mod_le.
Qed.

(** ** The internal period *)

(** X3.  Compression never lengthens the period: with the two levels
    [run_trial] passes, a compression coefficient in [0,1] and a
    non-empty list of non-negative periods, [inner_period] returns a
    value between 0 and the mean of the external periods. *)
Theorem inner_period_compresses (ext : list Q) (eta : Q) :
  ext <> [] -> 0 <= eta <= 1 -> Forall (fun T => 0 <= T) ext ->
  exists m v,
    Py.mean ext = Ok m /\ inner_period ext eta 2 = Ok v /\ 0 <= v <= m.
Proof.
  intros Hne [H0 H1] Hpos. unfold inner_period.
  assert (Hm : map (fun T => T * eta ^ 2) ext <> []).
  { destruct ext; [contradiction | discriminate]. }
  rewrite (mean_defined _ Hne), (mean_defined _ Hm).
  do 2 eexists. split; [reflexivity |]. split; [reflexivity |].
  pose proof (length_positive_inject _ ext Hne) as Hn.
  assert (Hv : Py.sum (map (fun T => T * eta ^ 2) ext)
               / inject_Z (Z.of_nat (length (map (fun T => T * eta ^ 2) ext)))
               == Py.sum ext / inject_Z (Z.of_nat (length ext)) * eta ^ 2).
  { rewrite length_map, sum_map_scale. field. intro Hz. lra. }
  rewrite Hv.
  assert (Hmn : 0 <= Py.sum ext / inject_Z (Z.of_nat (length ext)))
    by (apply quotient_nonneg; [now apply sum_nonneg | exact Hn]).
  set (m := Py.sum ext / inject_Z (Z.of_nat (length ext))) in *.
  change (eta ^ 2) with (eta * eta).
  assert (He : 0 <= eta * eta) by now apply Qmult_le_0_compat.
  assert (He1 : eta * eta <= 1).
  { assert (eta * eta <= 1 * eta) by (apply Qmult_le_compat_r; lra). lra. }
  split.
  - now apply Qmult_le_0_compat.
  - assert (Hle : (eta * eta) * m <= 1 * m) by (apply Qmult_le_compat_r; lra).
    lra.
Qed.

(** ** Resonance score: range and failures *)

(** X4.  For a positive tolerance and a non-empty list of positive
    periods, every value [resonance_score] returns lies in the closed unit
    interval, whatever the internal period. *)
Theorem resonance_score_range (T_internal tol r : Q) (ext : list Q) :
  0 < tol -> ext <> [] -> Forall (fun T => 0 < T) ext ->
  resonance_score T_internal ext tol = Ok r -> 0 <= r <= 1.
Proof.
  intros Htol _ Hpos E.
  exact (resonance_score_unit_returned _ _ _ _ Htol Hpos E).
Qed.

(** X5.  The failures of [resonance_score] on a non-empty list.  A zero
    internal period raises [ZeroDivisionError] at the first quotient.
    With a zero tolerance the function never returns: the first
    iteration divides the mismatch by the tolerance, if it gets that
    far. *)
Theorem resonance_score_failures (T_internal tol T : Q) (ext : list Q) :
  (T_internal == 0 ->
   resonance_score T_internal (T :: ext) tol = Raise ZeroDivisionError) /\
  (tol == 0 ->
   forall r, resonance_score T_internal (T :: ext) tol <> Ok r).
Proof.
  split.
  - intro Hz. unfold resonance_score. cbn [resonance_scores].
    unfold resonance_term at 1. unfold Py.div at 1.
    now rewrite (Qeq_eq_bool _ _ Hz).
  - intros Hz r E. unfold resonance_score in E. cbn [resonance_scores] in E.
    unfold resonance_term at 1 in E. unfold obind in E.
    destruct (Py.div T T_internal) as [x |]; [| discriminate].
    destruct (Py.div T _) as [q |]; [| discriminate].
    destruct (Py.div (Qabs _) _) as [mm |]; [| discriminate].
    unfold Py.div at 1 in E. rewrite (Qeq_eq_bool _ _ Hz) in E. discriminate.
Qed.

(** ** Trials: what the draws can and cannot change *)

Section TrialFacts.

Context {G : Type} {gen : Generator G} {num : Numeric}.

Lemma rhythms_draw_independent (p : Params) (g1 g1' g2 g2' : G)
      (T1 r1 mf1 T2 r2 mf2 : Q) :
  rhythms p g1 = Ok ((T1, r1, mf1), g1') ->
  rhythms p g2 = Ok ((T2, r2, mf2), g2') ->
  r1 = r2 /\ mf1 = mf2 /\ (mode p <> "no_field"%string -> T1 = T2).
Proof.
  intros E1 E2. destruct (string_dec (mode p) "no_field") as [Hm | Hm].
  - destruct (rhythms_no_field_shape _ _ _ _ _ _ Hm E1) as [-> [-> _]].
    destruct (rhythms_no_field_shape _ _ _ _ _ _ Hm E2) as [-> [-> _]].
    split; [reflexivity |]. split; [reflexivity |]. intro Hn. contradiction.
  - destruct (rhythms_field_shape _ _ _ _ _ _ Hm E1) as [Ei1 [Es1 [-> _]]].
    destruct (rhythms_field_shape _ _ _ _ _ _ Hm E2) as [Ei2 [Es2 [-> _]]].
    assert (ET : T1 = T2) by congruence. subst T2.
    assert (Err : r1 = r2) by congruence. subst r2. auto.
Qed.

(** X7.  Randomness never reaches the replication gate: any two trials of
    one configuration, whatever generator states they start from, record
    the same resonance and the same fidelity, and in every mode other than
    ["no_field"] the same internal period as well. *)
Theorem trial_fidelity_draw_independent (p : Params) (g1 g1' g2 g2' : G)
        (s1 s2 : bool) (m1 m2 : Metrics) :
  run_trial p g1 = Ok ((s1, m1), g1') ->
  run_trial p g2 = Ok ((s2, m2), g2') ->
  m_resonance m1 = m_resonance m2 /\
  m_fidelity m1 = m_fidelity m2 /\
  (mode p <> "no_field"%string -> m_T_internal m1 = m_T_internal m2).
Proof.
  intros E1 E2.
  destruct (run_trial_inversion_steps _ _ _ _ _ E1)
    as (a1 & h1 & e1 & n1 & l1 & k1 & T1 & r1 & f1 & c1 & b1 & i1 &
        _ & _ & Er1 & _ & _ & _ & ->).
  destruct (run_trial_inversion_steps _ _ _ _ _ E2)
    as (a2 & h2 & e2 & n2 & l2 & k2 & T2 & r2 & f2 & c2 & b2 & i2 &
        _ & _ & Er2 & _ & _ & _ & ->).
  destruct (rhythms_draw_independent _ _ _ _ _ _ _ _ _ _ _ Er1 Er2) as [-> [-> HT]].
  cbn. auto.
Qed.

(** X8.  The field never lowers fidelity.  Take two configurations with
    the same code length (at least 1), alphabet and base error rate (at
    least 0), one in mode ["no_field"] and one in any other mode with a
    non-empty list of positive periods and a positive tolerance: the
    fidelity recorded by a trial of the second is at least the fidelity
    recorded by a trial of the first, so a configuration that passes the
    replication gate without the field passes it with the field. *)
Theorem field_never_lowers_fidelity (p0 p1 : Params) (g0 g0' g1 g1' : G)
        (s0 s1 : bool) (m0 m1 : Metrics) :
  code_length p0 = code_length p1 -> alphabet p0 = alphabet p1 ->
  base_error_rate p0 = base_error_rate p1 ->
  (1 <= code_length p0)%Z -> 0 <= base_error_rate p0 ->
  mode p0 = "no_field"%string -> mode p1 <> "no_field"%string ->
  ext_periods p1 <> [] -> Forall (fun T => 0 < T) (ext_periods p1) ->
  0 < resonance_tolerance p1 ->
  run_trial p0 g0 = Ok ((s0, m0), g0') ->
  run_trial p1 g1 = Ok ((s1, m1), g1') ->
  m_fidelity m0 <= m_fidelity m1 /\
  (1 - m_fidelity m0 < crit_error_threshold p0 ->
   crit_error_threshold p0 <= crit_error_threshold p1 ->
   1 - m_fidelity m1 < crit_error_threshold p1).
Proof.
  intros Hcl Hal Hbe Hcl1 Hbe0 Hm0 Hm1 _ _ _ E0 E1.
  destruct (run_trial_inversion_steps _ _ _ _ _ E0)
    as (a0 & h0 & e0 & n0 & l0 & k0 & T0 & r0 & f0 & c0 & b0 & i0 &
        _ & _ & Er0 & _ & _ & _ & ->).
  destruct (run_trial_inversion_steps _ _ _ _ _ E1)
    as (a1 & h1 & e1 & n1 & l1 & k1 & T1 & r1 & f1 & c1 & b1 & i1 &
        _ & _ & Er1 & _ & _ & _ & ->).
  destruct (rhythms_no_field_shape _ _ _ _ _ _ Hm0 Er0) as [_ [-> _]].
  destruct (rhythms_field_shape _ _ _ _ _ _ Hm1 Er1) as [_ [_ [-> [Hr _]]]].
  cbn [m_fidelity]. rewrite <- Hcl, <- Hal, <- Hbe.
  assert (Hle : replication_fidelity (code_length p0) (alphabet p0)
                  (base_error_rate p0) 0.05
                <= replication_fidelity (code_length p0) (alphabet p0)
                     (base_error_rate p0) (0.2 + 0.6 * r1)).
  { apply replication_fidelity_mod_le; trivial. lra. }
  split; [exact Hle |]. intros Hok Hcrit. lra.
Qed.

End TrialFacts.

(** ** The aggregator: what a returned [Result] guarantees *)

Section Aggregator.

Context {G : Type} {gen : Generator G} {num : Numeric}.

(** The trials behind a tally: a loop of [k] iterations that returned ran
    [k] trials that returned, counted the successful ones and appended
    their three metrics in order. *)
Lemma trial_loop_trace (p : Params) (k : nat) (t t' : Tally) (g g' : G) :
  trial_loop k p t g = Ok (t', g') ->
  exists rs : list (bool * Metrics),
    length rs = k /\
    Forall (fun sm => exists g0 g0', run_trial p g0 = Ok ((fst sm, snd sm), g0')) rs /\
    t_successes t' = (t_successes t + Z.of_nat (length (filter fst rs)))%Z /\
    coh_list t' = coh_list t ++ map (fun sm => m_coherence (snd sm)) rs /\
    fid_list t' = fid_list t ++ map (fun sm => m_fidelity (snd sm)) rs /\
    I_list t' = I_list t ++ map (fun sm => m_I (snd sm)) rs.
Proof.
  revert t g. induction k as [| k IH]; intros t g E.
  - cbn in E. apply Ok_injective in E.
    assert (Et : t = t') by congruence. subst t'.
    exists []. cbn. rewrite !app_nil_r, Z.add_0_r.
    repeat split; constructor.
  - cbn [trial_loop] in E. unfold bind at 1 in E.
    destruct (run_trial p g) as [[[s m] g1] |] eqn:Et; [| discriminate].
    destruct (IH _ _ E) as (rs & Hl & Hall & Hs & Hc & Hf & Hi).
    cbn [t_successes coh_list fid_list I_list] in *.
    exists ((s, m) :: rs). cbn [length map filter fst snd].
    split; [now rewrite Hl |]. split; [constructor; eauto |].
    rewrite Hc, Hf, Hi, <- !app_assoc. cbn [app].
    repeat split. rewrite Hs. destruct s; cbn [length]; lia.
Qed.

Lemma run_simulation_inversion (p : Params) (g g' : G) (r : Result) :
  run_simulation p g = Ok (r, g') ->
  exists t,
    trial_loop (Z.to_nat (trials p)) p tally0 g = Ok (t, g') /\
    ~ inject_Z (trials p) == 0 /\
    success_rate r = inject_Z (t_successes t) / inject_Z (trials p) /\
    mean_or_zero (coh_list t) = Ok (mean_cycle_coherence r) /\
    mean_or_zero (fid_list t) = Ok (mean_replication_fidelity r) /\
    mean_or_zero (I_list t) = Ok (mean_invariant_I r) /\
    successes r = t_successes t /\
    res_trials r = trials p /\ res_mode r = mode p.
Proof.
  unfold run_simulation, bind, lift, ret. intro E.
  destruct (trial_loop (Z.to_nat (trials p)) p tally0 g) as [[t g1] |] eqn:El;
    [| discriminate].
  unfold Py.div in E.
  destruct (Qeq_bool (inject_Z (trials p)) 0) eqn:Ez; [discriminate |].
  destruct (mean_or_zero (coh_list t)) as [mc |] eqn:Ec; [| discriminate].
  destruct (mean_or_zero (fid_list t)) as [mf |] eqn:Ef; [| discriminate].
  destruct (mean_or_zero (I_list t)) as [mi |] eqn:Ei; [| discriminate].
  apply Ok_injective in E.
  pose proof (f_equal snd E) as Eg. cbv beta iota delta [snd] in Eg. subst g1.
  pose proof (f_equal fst E) as Er. cbv beta iota delta [fst] in Er. subst r.
  exists t. split; [reflexivity |]. split; [now apply Qeq_bool_neq |].
  cbn [success_rate mean_cycle_coherence mean_replication_fidelity
       mean_invariant_I successes res_trials res_mode].
  repeat split; first [assumption | reflexivity].
Qed.

Lemma filter_length_le {A} (f : A -> bool) (l : list A) :
  (length (filter f l) <= length l)%nat.
Proof.
  induction l as [| x l IH]; cbn; [lia |]. destruct (f x); cbn; lia.
Qed.

Lemma run_simulation_counts (p : Params) (g g' : G) (r : Result) :
  run_simulation p g = Ok (r, g') ->
  trials p <> 0%Z /\
  (0 <= successes r <= Z.max 0 (trials p))%Z /\
  success_rate r = inject_Z (successes r) / inject_Z (trials p).
Proof.
  intro E.
  destruct (run_simulation_inversion _ _ _ _ E)
    as (t & El & Hnz & Hsr & _ & _ & _ & Hs & _ & _).
  destruct (trial_loop_trace _ _ _ _ _ _ El) as (rs & Hl & _ & Hc & _).
  cbn [tally0 t_successes] in Hc.
  pose proof (filter_length_le fst rs) as Hle.
  split; [intro Hz; apply Hnz; now rewrite Hz |].
  rewrite Hs. split; [lia | exact Hsr].
Qed.

Lemma run_simulation_rate_unit (p : Params) (g g' : G) (r : Result) :
  run_simulation p g = Ok (r, g') -> 0 <= success_rate r <= 1.
Proof.
  intro E. destruct (run_simulation_counts _ _ _ _ E) as (_ & Hk & ->).
  destruct (Z.le_gt_cases (trials p) 0) as [Hneg | Hpos].
  - assert (Hz : successes r = 0%Z) by lia. rewrite Hz.
    assert (E0 : inject_Z 0 / inject_Z (trials p) == 0) by (unfold Qdiv; ring).
    rewrite E0. lra.
  - assert (Hq : 0 < inject_Z (trials p))
      by (change 0 with (inject_Z 0); rewrite <- Zlt_Qlt; lia).
    assert (H0 : 0 <= inject_Z (successes r))
      by (change 0 with (inject_Z 0); rewrite <- Zle_Qle; lia).
    assert (H1 : inject_Z (successes r) <= inject_Z (trials p))
      by (rewrite <- Zle_Qle; lia).
    split; [now apply quotient_nonneg |].
    apply Qle_shift_div_r; trivial. lra.
Qed.

(** X9.  Whenever [run_simulation] returns a [Result], the result echoes
    the configuration's [trials] and [mode], the trial count is not 0, the
    success count lies between 0 and the number of trials run, and the
    success rate is the quotient of the two, a value of the closed unit
    interval. *)
Theorem run_simulation_result_invariants (p : Params) (g g' : G) (r : Result) :
  run_simulation p g = Ok (r, g') ->
  res_trials r = trials p /\ res_mode r = mode p /\
  trials p <> 0%Z /\
  (0 <= successes r <= Z.max 0 (trials p))%Z /\
  success_rate r = inject_Z (successes r) / inject_Z (trials p) /\
  0 <= success_rate r <= 1.
Proof.
  intro E.
  destruct (run_simulation_inversion _ _ _ _ E)
    as (t & _ & _ & _ & _ & _ & _ & _ & Ht & Hm).
  destruct (run_simulation_counts _ _ _ _ E) as (Hnz & Hk & Hsr).
  pose proof (run_simulation_rate_unit _ _ _ _ E) as Hu.
  auto 10.
Qed.

(** X10.  A negative trial count is an empty run: no trial is executed, the
    generator is left as it was, and the [Result] has success rate 0,
    all three means 0 and no successes. *)
Theorem run_simulation_negative_trials (p : Params) (g : G) :
  (trials p < 0)%Z ->
  exists r,
    run_simulation p g = Ok (r, g) /\
    success_rate r == 0 /\ mean_cycle_coherence r = 0 /\
    mean_replication_fidelity r = 0 /\ mean_invariant_I r = 0 /\
    successes r = 0%Z /\ res_trials r = trials p.
Proof.
  intro Hneg. unfold run_simulation, bind, lift, ret.
  assert (Hk : Z.to_nat (trials p) = 0%nat) by lia. rewrite Hk.
  cbn [trial_loop ret tally0 t_successes coh_list fid_list I_list mean_or_zero].
  assert (Hq : inject_Z (trials p) < 0)
    by (change 0 with (inject_Z 0); rewrite <- Zlt_Qlt; lia).
  rewrite div_defined by (intro Hz; lra).
  eexists. split; [reflexivity |].
  cbn [success_rate mean_cycle_coherence mean_replication_fidelity
       mean_invariant_I successes res_trials].
  split; [unfold Qdiv; ring |]. repeat split.
Qed.

Lemma failed_gate_fails_trial (p : Params) (g g' : G) (s : bool) (m : Metrics) :
  run_trial p g = Ok ((s, m), g') ->
  crit_error_threshold p <= 1 - m_fidelity m -> s = false.
Proof.
  intros E Hc.
  destruct (run_trial_inversion_steps _ _ _ _ _ E)
    as (a1 & h1 & e1 & n1 & l1 & k1 & T1 & r1 & f1 & c1 & b1 & i1 &
        _ & _ & _ & _ & _ & -> & ->).
  cbn [m_fidelity] in Hc. apply ltb_false_iff in Hc. rewrite Hc.
  apply andb_false_r.
Qed.

Lemma all_failed_no_successes (rs : list (bool * Metrics)) :
  Forall (fun sm => fst sm = false) rs -> filter fst rs = [].
Proof.
  induction 1 as [| [s m] rs Hs _ IH]; cbn in *; trivial. now rewrite Hs.
Qed.

Lemma run_simulation_all_fail (p : Params) (g g' : G) (r : Result) :
  (forall g0 g0' s m, run_trial p g0 = Ok ((s, m), g0') -> s = false) ->
  run_simulation p g = Ok (r, g') ->
  successes r = 0%Z /\ success_rate r == 0.
Proof.
  intros Hfail E.
  destruct (run_simulation_inversion _ _ _ _ E)
    as (t & El & Hnz & Hsr & _ & _ & _ & Hs & _ & _).
  destruct (trial_loop_trace _ _ _ _ _ _ El) as (rs & _ & Hall & Hc & _).
  assert (Hnone : filter fst rs = []).
  { apply all_failed_no_successes. eapply Forall_impl; [| exact Hall].
    intros [s m] (g0 & g0' & E0). cbn in *. now apply (Hfail _ _ _ _ E0). }
  rewrite Hnone in Hc. cbn [tally0 t_successes length] in Hc.
  assert (Hz : t_successes t = 0%Z) by lia.
  split; [congruence |]. rewrite Hsr, Hz. unfold Qdiv. ring.
Qed.

Lemma trial_fidelity_constant (p : Params) (g1 g1' g2 g2' : G)
      (s1 s2 : bool) (m1 m2 : Metrics) :
  run_trial p g1 = Ok ((s1, m1), g1') ->
  run_trial p g2 = Ok ((s2, m2), g2') ->
  m_fidelity m1 = m_fidelity m2.
Proof.
  intros E1 E2.
  destruct (run_trial_inversion_steps _ _ _ _ _ E1)
    as (a1 & h1 & e1 & n1 & l1 & k1 & T1 & r1 & f1 & c1 & b1 & i1 &
        _ & _ & Er1 & _ & _ & _ & ->).
  destruct (run_trial_inversion_steps _ _ _ _ _ E2)
    as (a2 & h2 & e2 & n2 & l2 & k2 & T2 & r2 & f2 & c2 & b2 & i2 &
        _ & _ & Er2 & _ & _ & _ & ->).
  destruct (rhythms_draw_independent _ _ _ _ _ _ _ _ _ _ _ Er1 Er2) as [_ [-> _]].
  reflexivity.
Qed.

(** X11.  One trial decides the replication gate for the whole run: if
    some trial of a configuration records a fidelity with
    [1 - fidelity >= crit_error_threshold], then every [Result] that
    [run_simulation] returns for that configuration has no success at all
    and success rate 0, whatever the generator state. *)
Theorem failed_replication_gate_condemns_run (p : Params) (g0 g0' g g' : G)
        (s0 : bool) (m0 : Metrics) (r : Result) :
  run_trial p g0 = Ok ((s0, m0), g0') ->
  crit_error_threshold p <= 1 - m_fidelity m0 ->
  run_simulation p g = Ok (r, g') ->
  successes r = 0%Z /\ success_rate r == 0.
Proof.
  intros E0 Hc E. apply (run_simulation_all_fail p g g' r); trivial.
  intros g1 g1' s m E1. apply (failed_gate_fails_trial _ _ _ _ _ E1).
  now rewrite (trial_fidelity_constant _ _ _ _ _ _ _ _ _ E1 E0).
Qed.

Lemma no_field_gate_closed (p : Params) (g g' : G) (s : bool) (m : Metrics) :
  mode p = "no_field"%string ->
  crit_error_threshold p <= 1 ->
  crit_error_threshold p
    <= base_error_rate p * (1 + 0.5 * (inject_Z (code_length p) / 64)) * 0.97 ->
  run_trial p g = Ok ((s, m), g') -> s = false.
Proof.
  intros Hm Hc1 Hc E1. apply (failed_gate_fails_trial _ _ _ _ _ E1).
  destruct (run_trial_inversion_steps _ _ _ _ _ E1)
    as (a1 & h1 & e1 & n1 & l1 & k1 & T1 & r1 & f1 & c1 & b1 & i1 &
        _ & _ & Er1 & _ & _ & _ & ->).
  destruct (rhythms_no_field_shape _ _ _ _ _ _ Hm Er1) as [_ [-> _]].
  cbn [m_fidelity]. unfold replication_fidelity.
  assert (Ee : effective_error (code_length p) (base_error_rate p) 0.05
               == base_error_rate p
                  * (1 + 0.5 * (inject_Z (code_length p) / 64)) * 0.97)
    by (unfold effective_error; ring).
  destruct (max_cases 0 (1 - effective_error (code_length p)
                               (base_error_rate p) 0.05)) as [[_ ->] | [_ ->]]; lra.
Qed.

End Aggregator.

(** ** Trials: a negative species count, the no-field period, the mode string *)

Section TrialEdges.

Context {G : Type} {gen : Generator G} {num : Numeric}.

(** X14.  A negative species count (one that fits a machine word, as an
    array dimension must) is not rejected when the configuration is
    built, it fails inside the trial: [run_trial] raises [ValueError] at
    the first matrix draw, before any value is drawn, and so does a run of
    at least one trial. *)
Theorem negative_species_fail_mid_trial (p : Params) (g : G) :
  (- 2 ^ 63 <= n_species p < 0)%Z ->
  run_trial p g = Raise ValueError /\
  ((1 <= trials p)%Z -> run_simulation p g = Raise ValueError).
Proof.
  intros [_ Hn].
  assert (Ht : run_trial p g = Raise ValueError).
  { unfold run_trial, bind at 1, build_reaction_network, bind at 1.
    now rewrite random_matrix_negative. }
  split; [exact Ht |].
  intro Htr. unfold run_simulation, bind at 1.
  destruct (Z.to_nat (trials p)) as [| k] eqn:Ek; [lia |].
  cbn [trial_loop]. unfold bind at 1. now rewrite Ht.
Qed.

(** X15.  In mode ["no_field"] every trial that returns records an
    internal period in [0.05, 2): twice a uniform draw, floored at 0.05. *)
Theorem no_field_internal_period (p : Params) (g g' : G)
        (success : bool) (m : Metrics) :
  mode p = "no_field"%string ->
  run_trial p g = Ok ((success, m), g') ->
  0.05 <= m_T_internal m < 2.
Proof.
  intros Hm E.
  destruct (run_trial_inversion_steps _ _ _ _ _ E)
    as (a1 & h1 & e1 & n1 & l1 & k1 & T1 & r1 & f1 & c1 & b1 & i1 &
        _ & _ & Er & _ & _ & _ & ->).
  cbn [m_T_internal].
  now destruct (rhythms_no_field_shape _ _ _ _ _ _ Hm Er) as (_ & _ & HT).
Qed.

Lemma rhythms_mode_spelling (p : Params) (m1 m2 : string) (g : G) :
  m1 <> "no_field"%string -> m2 <> "no_field"%string ->
  rhythms (with_mode p m1) g = rhythms (with_mode p m2) g.
Proof.
  intros H1 H2. unfold rhythms. cbn [with_mode mode ext_periods f_eta resonance_tolerance].
  apply String.eqb_neq in H1. apply String.eqb_neq in H2. now rewrite H1, H2.
Qed.

Lemma run_trial_mode_spelling (p : Params) (m1 m2 : string) (g : G) :
  m1 <> "no_field"%string -> m2 <> "no_field"%string ->
  run_trial (with_mode p m1) g = run_trial (with_mode p m2) g.
Proof.
  intros H1 H2. unfold run_trial, bind.
  cbn [with_mode n_species density membrane_threshold code_length alphabet
       base_error_rate crit_error_threshold].
  destruct (build_reaction_network (n_species p) (density p) g)
    as [[adj g1] |]; trivial.
  change (environment (with_mode p m1)) with (environment p).
  change (environment (with_mode p m2)) with (environment p).
  destruct (environment p g1) as [[[[energy noise] leak] g2] |]; trivial.
  now rewrite (rhythms_mode_spelling p m1 m2 g2 H1 H2).
Qed.

Lemma trial_loop_mode_spelling (p : Params) (m1 m2 : string) (k : nat)
      (t : Tally) (g : G) :
  m1 <> "no_field"%string -> m2 <> "no_field"%string ->
  trial_loop k (with_mode p m1) t g = trial_loop k (with_mode p m2) t g.
Proof.
  intros H1 H2. revert t g. induction k as [| k IH]; intros t g; trivial.
  cbn [trial_loop]. unfold bind.
  rewrite (run_trial_mode_spelling p m1 m2 g H1 H2).
  destruct (run_trial (with_mode p m2) g) as [[[s m] g1] |]; trivial.
Qed.

(** X17.  The mode is compared with ["no_field"] and nothing else: any
    two mode strings other than ["no_field"] (["field"], a misspelling, the
    empty string) give the same trials, and the same [Result] up to the
    echoed mode string. *)
Theorem mode_is_no_field_or_not (p : Params) (m1 m2 : string) (g : G) :
  m1 <> "no_field"%string -> m2 <> "no_field"%string ->
  run_trial (with_mode p m1) g = run_trial (with_mode p m2) g /\
  forall r g',
    run_simulation (with_mode p m1) g = Ok (r, g') ->
    run_simulation (with_mode p m2) g =
    Ok ({| success_rate := success_rate r;
           mean_cycle_coherence := mean_cycle_coherence r;
           mean_replication_fidelity := mean_replication_fidelity r;
           mean_invariant_I := mean_invariant_I r;
           successes := successes r;
           res_trials := res_trials r;
           res_mode := m2 |}, g').
Proof.
  intros H1 H2. split; [now apply run_trial_mode_spelling |].
  intros r g'. unfold run_simulation, bind, lift, ret.
  cbn [with_mode trials mode].
  rewrite (trial_loop_mode_spelling p m1 m2 _ tally0 g H1 H2).
  destruct (trial_loop (Z.to_nat (trials p)) (with_mode p m2) tally0 g)
    as [[t g1] |]; [| discriminate].
  destruct (Py.div (inject_Z (t_successes t)) (inject_Z (trials p)))
    as [sr |]; [| discriminate].
  destruct (mean_or_zero (coh_list t)) as [mc |]; [| discriminate].
  destruct (mean_or_zero (fid_list t)) as [mf |]; [| discriminate].
  destruct (mean_or_zero (I_list t)) as [mi |]; [| discriminate].
  intro E. apply Ok_injective in E.
  pose proof (f_equal snd E) as Eg. cbv beta iota delta [snd] in Eg. subst g1.
  pose proof (f_equal fst E) as Er. cbv beta iota delta [fst] in Er. subst r.
  reflexivity.
Qed.

End TrialEdges.

(** ** The network at density 0 and the cycle evaluator's monotonicity *)

Lemma closed_mask_row (r u : list Q) (dens : Q) :
  Forall unit_interval u -> dens <= 0 ->
  Forall (fun y => y == 0)
    (Mat.zip_with (fun x b => x * Mat.of_bool b) r (map (fun x => Py.ltb x dens) u)).
Proof.
  intros Hu Hd. revert r.
  induction Hu as [| x u [Hx _] _ IH]; intros [| y r]; cbn [map Mat.zip_with];
    constructor.
  - assert (Hf : Py.ltb x dens = false) by (apply ltb_false_iff; lra).
    rewrite Hf. cbn [Mat.of_bool]. ring.
  - apply IH.
Qed.

Lemma closed_mask_rows (n : nat) (a u : mat) (dens : Q) :
  unit_rows n u -> dens <= 0 ->
  Forall (Forall (fun y => y == 0))
    (Mat.mul_mask a (map (map (fun x => Py.ltb x dens)) u)).
Proof.
  unfold Mat.mul_mask, unit_rows. intros Hu Hd. revert a.
  induction Hu as [| s u [_ Hs] _ IH]; intros [| r a]; cbn [map Mat.zip_with];
    constructor.
  - now apply closed_mask_row.
  - apply IH.
Qed.

Lemma Forall_nth_rows (P : list Q -> Prop) (a : mat) (i : nat) :
  P [] -> Forall P a -> P (nth i a []).
Proof.
  intros Hnil Ha. destruct (Nat.lt_ge_cases i (length a)) as [Hi | Hi].
  - rewrite Forall_forall in Ha. apply Ha. now apply nth_In.
  - now rewrite nth_overflow.
Qed.

Lemma sum_of_zeros (l : list Q) : Forall (fun y => y == 0) l -> Py.sum l == 0.
Proof.
  induction 1 as [| x l Hx _ IH]; [reflexivity |].
  rewrite sum_cons, Hx, IH. ring.
Qed.

Lemma normalised_zeros (r : list Q) :
  Forall (fun y => y == 0) r -> Forall (fun y => y == 0) (normalised r).
Proof.
  intro Hr. unfold normalised. apply Forall_forall. intros y Hy.
  apply in_map_iff in Hy. destruct Hy as [x [<- Hx]].
  rewrite Forall_forall in Hr. rewrite (Hr x Hx). unfold Qdiv. ring.
Qed.

Section NetworkEdges.

Context {G : Type} {gen : Generator G} {num : Numeric}.

(** X19.  At a density of 0 or below the mask keeps nothing: for every
    [n >= 0] the builder returns an [n]-row matrix whose entries are all 0,
    so every row sums to 0 (the all-zero rows the guard is there for). *)
Theorem build_reaction_network_closed_mask (n : Z) (dens : Q) (g : G) :
  (0 <= n)%Z -> dens <= 0 ->
  exists adj g',
    build_reaction_network n dens g = Ok (adj, g') /\
    length adj = Z.to_nat n /\
    forall i, Forall (fun x => x == 0) (nth i adj []) /\ Mat.row_sum adj i == 0.
Proof.
  intros Hn Hd.
  destruct (build_reaction_network_defined n dens g Hn)
    as (a & g1 & u & g' & _ & _ & Eb & La & Lu & _ & Uu).
  exists (reaction_network_of a u dens), g'. split; [exact Eb |].
  split; [rewrite reaction_network_length; congruence |].
  intro i. unfold Mat.row_sum. rewrite reaction_network_row.
  assert (Hk : Forall (fun y => y == 0) (kept_row a u dens i)).
  { unfold kept_row. apply set_nth_Forall; [reflexivity |].
    apply Forall_nth_rows; [constructor |].
    now apply (closed_mask_rows (Z.to_nat n)). }
  pose proof (normalised_zeros _ Hk) as Hz.
  split; [exact Hz | now apply sum_of_zeros].
Qed.

(** X20.  As the comment in [evaluate_cycle_coherence] says, energy
    increases connectivity and leaks and noise decrease it: on one
    network with a non-negative spectral radius, raising the energy and
    lowering the leak and the noise never lowers the coherence and never
    turns a detected cycle into no cycle. *)
Theorem evaluate_cycle_coherence_monotone (adj : mat) (rho : Q)
        (e1 l1 n1 e2 l2 n2 c1 c2 : Q) (h1 h2 : bool) :
  spectral_radius adj = Ok rho -> 0 <= rho ->
  e1 <= e2 -> l2 <= l1 -> n2 <= n1 ->
  evaluate_cycle_coherence adj e1 l1 n1 = Ok (c1, h1) ->
  evaluate_cycle_coherence adj e2 l2 n2 = Ok (c2, h2) ->
  c1 <= c2 /\ (h1 = true -> h2 = true).
Proof.
  intros Hrho Hpos He Hl Hn E1 E2.
  unfold evaluate_cycle_coherence, obind in E1, E2. rewrite Hrho in E1, E2.
  destruct (Py.mean _) as [loop |]; [| discriminate].
  apply Ok_injective in E1. apply Ok_injective in E2.
  pose proof (f_equal fst E1) as Ec1. pose proof (f_equal snd E1) as Eh1.
  pose proof (f_equal fst E2) as Ec2. pose proof (f_equal snd E2) as Eh2.
  cbv beta iota delta [fst snd] in Ec1, Eh1, Ec2, Eh2.
  subst c1 h1 c2 h2.
  assert (Hc : rho * (1 + 0.6 * e1) - (0.4 * l1 + 0.3 * n1)
               <= rho * (1 + 0.6 * e2) - (0.4 * l2 + 0.3 * n2)).
  { assert (rho * (1 + 0.6 * e1) <= rho * (1 + 0.6 * e2)).
    { rewrite !(Qmult_comm rho). apply Qmult_le_compat_r; lra. }
    lra. }
  split; [exact Hc |].
  rewrite !ltb_true_iff. intro H1. lra.
Qed.

End NetworkEdges.

(** ** The stress tests *)

Section StressFacts.

Context {G : Type} {gen : Generator G} {num : Numeric}.

Lemma sweep_loop_rows (mods : list Modification) :
  Forall (fun md =>
            well_formed (stored (keyword_args "no_field" 300 None (mod_kwargs md))) /\
            well_formed (stored (keyword_args "field" 300 None (mod_kwargs md))))
         mods ->
  forall (acc : list SweepRow) (g : G),
  exists rows g',
    sweep_loop mods acc g = Ok (acc ++ rows, g') /\
    Forall2 sweep_row_of mods rows.
Proof.
  induction 1 as [| md mods [Hw0 Hw1] _ IH]; intros acc g.
  - exists [], g. cbn. rewrite app_nil_r. split; [reflexivity | constructor].
  - cbn [sweep_loop]. unfold bind at 1, lift at 1, Params_init.
    destruct (run_simulation_returns _ g Hw0) as (r0 & g1 & E0).
    unfold bind at 1. rewrite E0.
    unfold bind at 1, lift at 1, Params_init.
    destruct (run_simulation_returns _ g1 Hw1) as (r1 & g2 & E1).
    unfold bind at 1. rewrite E1.
    destruct (IH (acc ++ [ {| test_name := mod_name md;
                              no_field_success := success_rate r0;
                              field_success := success_rate r1;
                              improvement := success_rate r1 - success_rate r0 |} ])
                 g2) as (rows & g' & El & Hrows).
    eexists (_ :: rows), g'. rewrite El, <- app_assoc. split; [reflexivity |].
    constructor; [| exact Hrows].
    unfold sweep_row_of. cbn [test_name no_field_success field_success improvement].
    split; [reflexivity |].
    split; [exact (run_simulation_rate_unit _ _ _ _ E0) |].
    split; [exact (run_simulation_rate_unit _ _ _ _ E1) |].
    split; [reflexivity |].
    intros [Hc1 Hc].
    refine (proj2 (run_simulation_all_fail _ g g1 r0 _ E0)).
    intros g0 g0' s m Et.
    exact (no_field_gate_closed
             (stored (keyword_args "no_field" 300 None (mod_kwargs md)))
             g0 g0' s m eq_refl Hc1 Hc Et).
Qed.

(** X21.  [parameter_sweep] never raises.  It returns four rows, named
    in the order of [harder_params]; in each row both success rates lie
    in [0,1] and the improvement is their difference.  In the rows "High
    Error Rate" and "Hard Mode (Combined)" the no-field success rate is 0
    whatever the draws, because the no-field effective error (0.0509 and
    0.0437) is not below the threshold 0.04: there the improvement is the
    field success rate itself. *)
Theorem parameter_sweep_rows (g : G) :
  exists r1 r2 r3 r4 g',
    parameter_sweep g = Ok ([r1; r2; r3; r4], g') /\
    map test_name [r1; r2; r3; r4] =
      ["High Noise"; "Low Energy"; "High Error Rate"; "Hard Mode (Combined)"]%string /\
    Forall (fun row =>
              0 <= no_field_success row <= 1 /\
              0 <= field_success row <= 1 /\
              improvement row = field_success row - no_field_success row)
           [r1; r2; r3; r4] /\
    no_field_success r3 == 0 /\ improvement r3 == field_success r3 /\
    no_field_success r4 == 0 /\ improvement r4 == field_success r4.
Proof.
  destruct (sweep_loop_rows harder_params) with (acc := @nil SweepRow) (g := g)
    as (rows & g' & E & Hrows).
  { unfold harder_params. repeat constructor; cbn; by_computation. }
  unfold harder_params in Hrows.
  inversion Hrows as [| md1 r1 ms1 rs1 H1 Hrows1]; subst.
  inversion Hrows1 as [| md2 r2 ms2 rs2 H2 Hrows2]; subst.
  inversion Hrows2 as [| md3 r3 ms3 rs3 H3 Hrows3]; subst.
  inversion Hrows3 as [| md4 r4 ms4 rs4 H4 Hrows4]; subst.
  inversion Hrows4; subst.
  exists r1, r2, r3, r4, g'. split; [exact E |].
  destruct H1 as (N1 & A1 & B1 & I1 & _).
  destruct H2 as (N2 & A2 & B2 & I2 & _).
  destruct H3 as (N3 & A3 & B3 & I3 & Z3).
  destruct H4 as (N4 & A4 & B4 & I4 & Z4).
  cbn [mod_name] in *. cbn [map]. split; [congruence |].
  split.
  { repeat (apply Forall_cons; [auto |]). apply Forall_nil. }
  assert (Z3' : no_field_success r3 == 0).
  { apply Z3. split; cbn; by_computation. }
  assert (Z4' : no_field_success r4 == 0).
  { apply Z4. split; cbn; by_computation. }
  rewrite I3, I4. repeat split; trivial; lra.
Qed.

End StressFacts.

Section RhythmBlind.

Context {G : Type} {gen : Generator G} {num : Numeric}.

Lemma open_gate (p : Params) (reson : Q) :
  (1 <= code_length p)%Z -> 0 <= base_error_rate p -> 0 <= reson ->
  base_error_rate p * (1 + 0.5 * (inject_Z (code_length p) / 64)) * 0.88
    < crit_error_threshold p ->
  Py.ltb (1 - replication_fidelity (code_length p) (alphabet p)
                (base_error_rate p) (0.2 + 0.6 * reson))
         (crit_error_threshold p) = true.
Proof.
  intros Hcl Hbe Hr Hopen. apply ltb_true_iff. unfold replication_fidelity.
  pose proof (length_factor_positive _ Hcl) as HA.
  assert (He : effective_error (code_length p) (base_error_rate p) (0.2 + 0.6 * reson)
               <= base_error_rate p
                  * (1 + 0.5 * (inject_Z (code_length p) / 64)) * 0.88).
  { unfold effective_error.
    rewrite !(Qmult_comm (base_error_rate p * _)).
    apply Qmult_le_compat_r; [lra |]. apply Qmult_le_0_compat; lra. }
  destruct (max_cases 0 (1 - effective_error (code_length p) (base_error_rate p)
                               (0.2 + 0.6 * reson))) as [[_ ->] | [Hle ->]]; lra.
Qed.

Lemma environment_same (p1 p2 : Params) (g : G) :
  same_chemistry p1 p2 -> environment p1 g = environment p2 g.
Proof.
  intros (_ & _ & He & Hn & _ & Hl & _). unfold environment.
  now rewrite He, Hn, Hl.
Qed.

Lemma run_trial_rhythm_blind (p1 p2 : Params) (g g1 g2 : G)
      (s1 s2 : bool) (m1 m2 : Metrics) :
  same_chemistry p1 p2 -> replication_gate_open p1 -> replication_gate_open p2 ->
  run_trial p1 g = Ok ((s1, m1), g1) ->
  run_trial p2 g = Ok ((s2, m2), g2) ->
  s1 = s2 /\ m_coherence m1 = m_coherence m2 /\
  m_membrane_stability m1 = m_membrane_stability m2 /\ g1 = g2.
Proof.
  intros Hsame (Hm1 & Hcl1 & Hbe1 & Ho1) (Hm2 & Hcl2 & Hbe2 & Ho2) E1 E2.
  pose proof (fun g0 => environment_same p1 p2 g0 Hsame) as Henv.
  destruct Hsame as (Hn & Hd & _ & _ & Hth & _ & _).
  destruct (run_trial_inversion_steps _ _ _ _ _ E1)
    as (a1 & h1 & e1 & n1 & l1 & k1 & T1 & r1 & f1 & c1 & b1 & i1 &
        Eb1 & Ee1 & Er1 & Ec1 & _ & -> & ->).
  destruct (run_trial_inversion_steps _ _ _ _ _ E2)
    as (a2 & h2 & e2 & n2 & l2 & k2 & T2 & r2 & f2 & c2 & b2 & i2 &
        Eb2 & Ee2 & Er2 & Ec2 & _ & -> & ->).
  rewrite Hn, Hd, Eb2 in Eb1. apply Ok_injective in Eb1.
  assert (Ea : a2 = a1) by congruence. assert (Eh : h2 = h1) by congruence.
  subst a2 h2.
  rewrite Henv, Ee2 in Ee1. apply Ok_injective in Ee1.
  assert (Ee : e2 = e1) by congruence. assert (En : n2 = n1) by congruence.
  assert (El : l2 = l1) by congruence. assert (Ek : k2 = k1) by congruence.
  subst e2 n2 l2 k2.
  rewrite Ec2 in Ec1. apply Ok_injective in Ec1.
  assert (Ec : c2 = c1) by congruence. assert (Ebb : b2 = b1) by congruence.
  subst c2 b2.
  destruct (rhythms_field_shape _ _ _ _ _ _ Hm1 Er1) as (_ & _ & -> & Hr1 & ->).
  destruct (rhythms_field_shape _ _ _ _ _ _ Hm2 Er2) as (_ & _ & -> & Hr2 & ->).
  cbn [m_coherence m_membrane_stability].
  rewrite (open_gate p1 r1 Hcl1 Hbe1 Hr1 Ho1), (open_gate p2 r2 Hcl2 Hbe2 Hr2 Ho2).
  rewrite Hth. auto.
Qed.

Lemma trial_loop_rhythm_blind (p1 p2 : Params) (k : nat) :
  same_chemistry p1 p2 -> replication_gate_open p1 -> replication_gate_open p2 ->
  forall (t1 t2 t1' t2' : Tally) (g g1 g2 : G),
    t_successes t1 = t_successes t2 -> coh_list t1 = coh_list t2 ->
    trial_loop k p1 t1 g = Ok (t1', g1) ->
    trial_loop k p2 t2 g = Ok (t2', g2) ->
    t_successes t1' = t_successes t2' /\ coh_list t1' = coh_list t2' /\ g1 = g2.
Proof.
  intros Hsame Ho1 Ho2. induction k as [| k IH];
    intros t1 t2 t1' t2' g g1 g2 Hs Hc E1 E2.
  - cbn in E1, E2. apply Ok_injective in E1. apply Ok_injective in E2.
    assert (t1 = t1') by congruence. assert (t2 = t2') by congruence.
    assert (g = g1) by congruence. assert (g = g2) by congruence.
    subst. auto.
  - cbn [trial_loop] in E1, E2. unfold bind at 1 in E1. unfold bind at 1 in E2.
    destruct (run_trial p1 g) as [[[s1 m1] h1] |] eqn:Et1; [| discriminate].
    destruct (run_trial p2 g) as [[[s2 m2] h2] |] eqn:Et2; [| discriminate].
    destruct (run_trial_rhythm_blind _ _ _ _ _ _ _ _ _ Hsame Ho1 Ho2 Et1 Et2)
      as (-> & Hcoh & _ & ->).
    eapply IH; [| | exact E1 | exact E2]; cbn [t_successes coh_list].
    + now rewrite Hs.
    + now rewrite Hc, Hcoh.
Qed.

Lemma run_simulation_rhythm_blind (p1 p2 : Params) (g g1 g2 : G)
      (r1 r2 : Result) :
  same_chemistry p1 p2 -> replication_gate_open p1 -> replication_gate_open p2 ->
  run_simulation p1 g = Ok (r1, g1) ->
  run_simulation p2 g = Ok (r2, g2) ->
  successes r1 = successes r2 /\ success_rate r1 = success_rate r2 /\
  mean_cycle_coherence r1 = mean_cycle_coherence r2 /\ g1 = g2.
Proof.
  intros Hsame Ho1 Ho2 E1 E2.
  destruct (run_simulation_inversion _ _ _ _ E1)
    as (t1 & El1 & _ & Hsr1 & Hc1 & _ & _ & Hs1 & _ & _).
  destruct (run_simulation_inversion _ _ _ _ E2)
    as (t2 & El2 & _ & Hsr2 & Hc2 & _ & _ & Hs2 & _ & _).
  assert (Htr : trials p1 = trials p2) by apply Hsame.
  rewrite Htr in El1.
  destruct (trial_loop_rhythm_blind p1 p2 _ Hsame Ho1 Ho2
              tally0 tally0 t1 t2 g g1 g2 eq_refl eq_refl El1 El2)
    as (Hs & Hc & Hg).
  rewrite Hc, Hc2 in Hc1. apply Ok_injective in Hc1.
  rewrite Hsr1, Hsr2, Hs1, Hs2, Hs, Htr. auto.
Qed.

Lemma run_trial_gate_blind (p1 p2 : Params) (g g1 g2 : G)
      (s1 s2 : bool) (m1 m2 : Metrics) :
  same_chemistry p1 p2 ->
  mode p1 <> "no_field"%string -> mode p2 <> "no_field"%string ->
  run_trial p1 g = Ok ((s1, m1), g1) ->
  run_trial p2 g = Ok ((s2, m2), g2) ->
  1 - m_fidelity m1 < crit_error_threshold p1 ->
  1 - m_fidelity m2 < crit_error_threshold p2 ->
  s1 = s2 /\ m_coherence m1 = m_coherence m2 /\
  m_membrane_stability m1 = m_membrane_stability m2 /\ g1 = g2.
Proof.
  intros Hsame Hm1 Hm2 E1 E2 Ho1 Ho2.
  pose proof (fun g0 => environment_same p1 p2 g0 Hsame) as Henv.
  destruct Hsame as (Hn & Hd & _ & _ & Hth & _ & _).
  destruct (run_trial_inversion_steps _ _ _ _ _ E1)
    as (a1 & h1 & e1 & n1 & l1 & k1 & T1 & r1 & f1 & c1 & b1 & i1 &
        Eb1 & Ee1 & Er1 & Ec1 & _ & -> & ->).
  destruct (run_trial_inversion_steps _ _ _ _ _ E2)
    as (a2 & h2 & e2 & n2 & l2 & k2 & T2 & r2 & f2 & c2 & b2 & i2 &
        Eb2 & Ee2 & Er2 & Ec2 & _ & -> & ->).
  rewrite Hn, Hd, Eb2 in Eb1. apply Ok_injective in Eb1.
  assert (Ea : a2 = a1) by congruence. assert (Eh : h2 = h1) by congruence.
  subst a2 h2.
  rewrite Henv, Ee2 in Ee1. apply Ok_injective in Ee1.
  assert (Ee : e2 = e1) by congruence. assert (En : n2 = n1) by congruence.
  assert (El : l2 = l1) by congruence. assert (Ek : k2 = k1) by congruence.
  subst e2 n2 l2 k2.
  rewrite Ec2 in Ec1. apply Ok_injective in Ec1.
  assert (Ec : c2 = c1) by congruence. assert (Ebb : b2 = b1) by congruence.
  subst c2 b2.
  destruct (rhythms_field_shape _ _ _ _ _ _ Hm1 Er1) as (_ & _ & _ & _ & ->).
  destruct (rhythms_field_shape _ _ _ _ _ _ Hm2 Er2) as (_ & _ & _ & _ & ->).
  cbn [m_coherence m_membrane_stability m_fidelity] in *.
  apply ltb_true_iff in Ho1. apply ltb_true_iff in Ho2.
  rewrite Ho1, Ho2, Hth. auto.
Qed.

Lemma trial_loop_gate_blind (p1 p2 : Params) (k : nat) :
  same_chemistry p1 p2 ->
  mode p1 <> "no_field"%string -> mode p2 <> "no_field"%string ->
  (forall g0 g0' s m, run_trial p1 g0 = Ok ((s, m), g0') ->
                      1 - m_fidelity m < crit_error_threshold p1) ->
  (forall g0 g0' s m, run_trial p2 g0 = Ok ((s, m), g0') ->
                      1 - m_fidelity m < crit_error_threshold p2) ->
  forall (t1 t2 t1' t2' : Tally) (g g1 g2 : G),
    t_successes t1 = t_successes t2 -> coh_list t1 = coh_list t2 ->
    trial_loop k p1 t1 g = Ok (t1', g1) ->
    trial_loop k p2 t2 g = Ok (t2', g2) ->
    t_successes t1' = t_successes t2' /\ coh_list t1' = coh_list t2' /\ g1 = g2.
Proof.
  intros Hsame Hm1 Hm2 Ho1 Ho2. induction k as [| k IH];
    intros t1 t2 t1' t2' g g1 g2 Hs Hc E1 E2.
  - cbn in E1, E2. apply Ok_injective in E1. apply Ok_injective in E2.
    assert (t1 = t1') by congruence. assert (t2 = t2') by congruence.
    assert (g = g1) by congruence. assert (g = g2) by congruence.
    subst. auto.
  - cbn [trial_loop] in E1, E2. unfold bind at 1 in E1. unfold bind at 1 in E2.
    destruct (run_trial p1 g) as [[[s1 m1] h1] |] eqn:Et1; [| discriminate].
    destruct (run_trial p2 g) as [[[s2 m2] h2] |] eqn:Et2; [| discriminate].
    destruct (run_trial_gate_blind _ _ _ _ _ _ _ _ _ Hsame Hm1 Hm2 Et1 Et2
                (Ho1 _ _ _ _ Et1) (Ho2 _ _ _ _ Et2))
      as (-> & Hcoh & _ & ->).
    eapply IH; [| | exact E1 | exact E2]; cbn [t_successes coh_list].
    + now rewrite Hs.
    + now rewrite Hc, Hcoh.
Qed.

(** X22.  In a mode other than ["no_field"] the rhythm parameters cannot
    move the success rate of a configuration that passes its replication
    gate.  Take two such configurations with the same chemistry, membrane
    and trial count, each with a trial on record whose fidelity passes its
    gate ([1 - fidelity < crit_error_threshold]); they may differ in
    [f_eta], [ext_periods], [resonance_tolerance] and in the code.  From
    the same generator state their trials have the same success flag,
    coherence and membrane stability, and their runs return the same
    success count, success rate and mean coherence and leave the same
    generator state. *)
Theorem field_success_ignores_rhythm (p1 p2 : Params) (h1 h1' h2 h2' : G)
        (t1 t2 : bool) (n1 n2 : Metrics) :
  same_chemistry p1 p2 ->
  mode p1 <> "no_field"%string -> mode p2 <> "no_field"%string ->
  run_trial p1 h1 = Ok ((t1, n1), h1') ->
  1 - m_fidelity n1 < crit_error_threshold p1 ->
  run_trial p2 h2 = Ok ((t2, n2), h2') ->
  1 - m_fidelity n2 < crit_error_threshold p2 ->
  (forall (g g1 g2 : G) (s1 s2 : bool) (m1 m2 : Metrics),
      run_trial p1 g = Ok ((s1, m1), g1) ->
      run_trial p2 g = Ok ((s2, m2), g2) ->
      s1 = s2 /\ m_coherence m1 = m_coherence m2 /\
      m_membrane_stability m1 = m_membrane_stability m2 /\ g1 = g2) /\
  (forall (g g1 g2 : G) (r1 r2 : Result),
      run_simulation p1 g = Ok (r1, g1) ->
      run_simulation p2 g = Ok (r2, g2) ->
      successes r1 = successes r2 /\ success_rate r1 = success_rate r2 /\
      mean_cycle_coherence r1 = mean_cycle_coherence r2 /\ g1 = g2).
Proof.
  intros Hsame Hm1 Hm2 T1 Hg1 T2 Hg2.
  assert (Ho1 : forall g0 g0' s m, run_trial p1 g0 = Ok ((s, m), g0') ->
                                   1 - m_fidelity m < crit_error_threshold p1).
  { intros g0 g0' s m E0.
    now rewrite (trial_fidelity_constant _ _ _ _ _ _ _ _ _ E0 T1). }
  assert (Ho2 : forall g0 g0' s m, run_trial p2 g0 = Ok ((s, m), g0') ->
                                   1 - m_fidelity m < crit_error_threshold p2).
  { intros g0 g0' s m E0.
    now rewrite (trial_fidelity_constant _ _ _ _ _ _ _ _ _ E0 T2). }
  split.
  - intros g g1 g2 s1 s2 m1 m2 E1 E2.
    exact (run_trial_gate_blind _ _ _ _ _ _ _ _ _ Hsame Hm1 Hm2 E1 E2
             (Ho1 _ _ _ _ E1) (Ho2 _ _ _ _ E2)).
  - intros g g1 g2 r1 r2 E1 E2.
    destruct (run_simulation_inversion _ _ _ _ E1)
      as (u1 & El1 & _ & Hsr1 & Hc1 & _ & _ & Hs1 & _ & _).
    destruct (run_simulation_inversion _ _ _ _ E2)
      as (u2 & El2 & _ & Hsr2 & Hc2 & _ & _ & Hs2 & _ & _).
    assert (Htr : trials p1 = trials p2) by apply Hsame.
    rewrite Htr in El1.
    destruct (trial_loop_gate_blind p1 p2 _ Hsame Hm1 Hm2 Ho1 Ho2
                tally0 tally0 u1 u2 g g1 g2 eq_refl eq_refl El1 El2)
      as (Hs & Hc & Hg).
    rewrite Hc, Hc2 in Hc1. apply Ok_injective in Hc1.
    rewrite Hsr1, Hsr2, Hs1, Hs2, Hs, Htr. auto.
Qed.

Lemma same_rate_from_same_state (p1 p2 : Params) (g : G) :
  well_formed p1 -> well_formed p2 -> same_chemistry p1 p2 ->
  replication_gate_open p1 -> replication_gate_open p2 ->
  exists r1 r2 g',
    run_simulation p1 g = Ok (r1, g') /\ run_simulation p2 g = Ok (r2, g') /\
    success_rate r1 = success_rate r2 /\
    mean_cycle_coherence r1 = mean_cycle_coherence r2.
Proof.
  intros Hw1 Hw2 Hsame Ho1 Ho2.
  destruct (run_simulation_returns p1 g Hw1) as (r1 & g1 & E1).
  destruct (run_simulation_returns p2 g Hw2) as (r2 & g2 & E2).
  destruct (run_simulation_rhythm_blind _ _ _ _ _ _ _ Hsame Ho1 Ho2 E1 E2)
    as (_ & Hr & Hc & <-).
  exists r1, r2, g1. auto.
Qed.

End RhythmBlind.

Section Analyses.

Context {G : Type} {gen : Generator G} {num : Numeric}.

Lemma eta_loop_rows (etas : list Q) :
  Forall (fun eta =>
            well_formed (stored (keyword_args "field" 200 None
                                   [("f_eta", eta); ("noise_level", 0.35);
                                    ("energy_grad", 0.7)]%string)))
         etas ->
  forall (acc : list EtaRow) (g : G),
  exists rows g',
    eta_loop etas acc g = Ok (acc ++ rows, g') /\
    map eta_value rows = etas /\
    Forall (fun row => 0 <= eta_success_rate row <= 1) rows.
Proof.
  induction 1 as [| eta etas Hw _ IH]; intros acc g.
  - exists [], g. cbn. rewrite app_nil_r. auto.
  - cbn [eta_loop]. unfold bind at 1, lift at 1, Params_init.
    destruct (run_simulation_returns _ g Hw) as (r & g1 & E).
    unfold bind at 1. rewrite E.
    destruct (IH (acc ++ [ {| eta_value := eta;
                              eta_success_rate := success_rate r;
                              eta_coherence := mean_cycle_coherence r |} ]) g1)
      as (rows & g' & El & Hv & Hr).
    eexists (_ :: rows), g'. rewrite El, <- app_assoc. split; [reflexivity |].
    cbn [map eta_value]. split; [now rewrite Hv |].
    constructor; [| exact Hr]. exact (run_simulation_rate_unit _ _ _ _ E).
Qed.

Lemma eta_values_well_formed :
  Forall (fun eta =>
            well_formed (stored (keyword_args "field" 200 None
                                   [("f_eta", eta); ("noise_level", 0.35);
                                    ("energy_grad", 0.7)]%string)))
         eta_values.
Proof.
  unfold eta_values. repeat constructor; cbn; by_computation.
Qed.

(** X23.  [analyze_eta_effect] never raises: every configuration it
    builds is well-formed.  It returns one row per value of
    [eta_values], in that order, each with a success rate in [0,1].  The
    rows can differ only through the draws: run from one generator state,
    the configurations of any two of the values return the same success
    rate and the same mean coherence. *)
Theorem analyze_eta_effect_rows (g : G) :
  (exists rows g',
      analyze_eta_effect g = Ok (rows, g') /\
      map eta_value rows = [0.1; 0.2; 0.32; 0.4; 0.5; 0.618; 0.7; 0.9] /\
      Forall (fun row => 0 <= eta_success_rate row <= 1) rows) /\
  (forall eta1 eta2,
      In eta1 eta_values -> In eta2 eta_values ->
      exists r1 r2 g',
        run_simulation
          (stored (keyword_args "field" 200 None
                     [("f_eta", eta1); ("noise_level", 0.35);
                      ("energy_grad", 0.7)]%string)) g = Ok (r1, g') /\
        run_simulation
          (stored (keyword_args "field" 200 None
                     [("f_eta", eta2); ("noise_level", 0.35);
                      ("energy_grad", 0.7)]%string)) g = Ok (r2, g') /\
        success_rate r1 = success_rate r2 /\
        mean_cycle_coherence r1 = mean_cycle_coherence r2).
Proof.
  pose proof eta_values_well_formed as Hwf. split.
  - destruct (eta_loop_rows eta_values Hwf) with (acc := @nil EtaRow) (g := g)
      as (rows & g' & E & Hv & Hr).
    exists rows, g'. auto.
  - intros eta1 eta2 H1 H2. rewrite Forall_forall in Hwf.
    apply same_rate_from_same_state; [now apply Hwf | now apply Hwf | | |].
    + repeat split.
    + split; [discriminate |]. split; [cbn; lia |]. split; cbn; by_computation.
    + split; [discriminate |]. split; [cbn; lia |]. split; cbn; by_computation.
Qed.

Lemma period_loop_rows (sets : list (string * list Q)) :
  Forall (fun pset =>
            well_formed (stored (keyword_args "field" 200 (Some (snd pset))
                                   [("noise_level", 0.35)]%string)))
         sets ->
  forall (acc : list PeriodRow) (g : G),
  exists rows g',
    period_loop sets acc g = Ok (acc ++ rows, g') /\
    map period_name rows = map fst sets /\
    Forall (fun row => 0 <= period_success_rate row <= 1) rows.
Proof.
  induction 1 as [| pset sets Hw _ IH]; intros acc g.
  - exists [], g. cbn. rewrite app_nil_r. auto.
  - cbn [period_loop]. unfold bind at 1, lift at 1, Params_init.
    destruct (run_simulation_returns _ g Hw) as (r & g1 & E).
    unfold bind at 1. rewrite E.
    destruct (IH (acc ++ [ {| period_name := fst pset;
                              period_success_rate := success_rate r |} ]) g1)
      as (rows & g' & El & Hv & Hr).
    eexists (_ :: rows), g'. rewrite El, <- app_assoc. split; [reflexivity |].
    cbn [map period_name]. split; [now rewrite Hv |].
    constructor; [| exact Hr]. exact (run_simulation_rate_unit _ _ _ _ E).
Qed.

Lemma period_sets_well_formed :
  Forall (fun pset =>
            well_formed (stored (keyword_args "field" 200 (Some (snd pset))
                                   [("noise_level", 0.35)]%string)))
         period_sets.
Proof.
  unfold period_sets. repeat constructor; cbn; by_computation.
Qed.

(** X24.  [analyze_periods] never raises: every configuration it builds
    is well-formed.  It returns one row per period set, named in the order
    of the source, each with a success rate in [0,1].  The rows can differ
    only through the draws: run from one generator state, the
    configurations of any two of the period sets return the same success
    rate and the same mean coherence. *)
Theorem analyze_periods_rows (g : G) :
  (exists rows g',
      analyze_periods g = Ok (rows, g') /\
      map period_name rows =
        ["Earth"; "Mars"; "Solar (22yr)"; "EnGeL (Node 8.5)"]%string /\
      Forall (fun row => 0 <= period_success_rate row <= 1) rows) /\
  (forall pset1 pset2,
      In pset1 period_sets -> In pset2 period_sets ->
      exists r1 r2 g',
        run_simulation
          (stored (keyword_args "field" 200 (Some (snd pset1))
                     [("noise_level", 0.35)]%string)) g = Ok (r1, g') /\
        run_simulation
          (stored (keyword_args "field" 200 (Some (snd pset2))
                     [("noise_level", 0.35)]%string)) g = Ok (r2, g') /\
        success_rate r1 = success_rate r2 /\
        mean_cycle_coherence r1 = mean_cycle_coherence r2).
Proof.
  pose proof period_sets_well_formed as Hwf. split.
  - destruct (period_loop_rows period_sets Hwf) with (acc := @nil PeriodRow) (g := g)
      as (rows & g' & E & Hv & Hr).
    exists rows, g'. auto.
  - intros pset1 pset2 H1 H2. rewrite Forall_forall in Hwf.
    apply same_rate_from_same_state; [now apply Hwf | now apply Hwf | | |].
    + repeat split.
    + split; [discriminate |]. split; [cbn; lia |]. split; cbn; by_computation.
    + split; [discriminate |]. split; [cbn; lia |]. split; cbn; by_computation.
Qed.

End Analyses.

(** ** The further properties on concrete inputs *)

Lemma membrane_stability_monotone_witness :
  membrane_stability 0.55 1 0.5 <= membrane_stability 0.55 2 0.25.
Proof.
  apply membrane_stability_monotone; by_computation.
Defined.

Lemma replication_fidelity_monotone_mod_witness :
  replication_fidelity 64 4 0.02 0.05 <= replication_fidelity 64 4 0.02 0.8.
Proof.
  apply replication_fidelity_monotone_mod; [lia | by_computation | by_computation].
Defined.

Lemma inner_period_compresses_witness :
  exists m v,
    Py.mean [1; 2] = Ok m /\ inner_period [1; 2] 0.5 2 = Ok v /\ 0 <= v <= m.
Proof.
  apply inner_period_compresses.
  - discriminate.
  - split; by_computation.
  - repeat constructor; by_computation.
Defined.

Lemma resonance_score_range_witness :
  exists r, resonance_score 0.3 [1; 2] 0.08 = Ok r /\ 0 <= r <= 1.
Proof.
  destruct (resonance_score 0.3 [1; 2] 0.08) as [r |] eqn:E; [| returned E].
  exists r. split; [reflexivity |].
  apply (resonance_score_range 0.3 0.08 r [1; 2]);
    [by_computation | discriminate | repeat constructor | exact E].
Defined.

Lemma resonance_score_failures_witness :
  resonance_score 0 [1; 2] 0.08 = Raise ZeroDivisionError.
Proof.
  destruct (resonance_score_failures 0 0.08 1 [2]) as (Hz & _).
  apply Hz. by_computation.
Defined.

Lemma trial_fidelity_draw_independent_witness :
  match run_trial (small_params "field") demo_tape,
        run_trial (small_params "field") other_tape with
  | Ok ((_, m1), _), Ok ((_, m2), _) => m_fidelity m1 = m_fidelity m2
  | _, _ => False
  end.
Proof.
  destruct (run_trial (small_params "field") demo_tape)
    as [[[s1 m1] g1] |] eqn:E1; [| returned E1].
  destruct (run_trial (small_params "field") other_tape)
    as [[[s2 m2] g2] |] eqn:E2; [| returned E2].
  exact (proj1 (proj2 (trial_fidelity_draw_independent _ _ _ _ _ _ _ _ _ E1 E2))).
Defined.

Lemma field_never_lowers_fidelity_witness :
  match run_trial (small_params "no_field") demo_tape,
        run_trial (small_params "field") other_tape with
  | Ok ((_, m0), _), Ok ((_, m1), _) => m_fidelity m0 <= m_fidelity m1
  | _, _ => False
  end.
Proof.
  destruct (run_trial (small_params "no_field") demo_tape)
    as [[[s0 m0] g0] |] eqn:E0; [| returned E0].
  destruct (run_trial (small_params "field") other_tape)
    as [[[s1 m1] g1] |] eqn:E1; [| returned E1].
  refine (proj1 (field_never_lowers_fidelity
                   (small_params "no_field") (small_params "field")
                   _ _ _ _ _ _ _ _ eq_refl eq_refl eq_refl _ _ eq_refl _ _ _ _
                   E0 E1)).
  - cbn. lia.
  - by_computation.
  - discriminate.
  - discriminate.
  - repeat constructor.
  - reflexivity.
Defined.

Lemma run_simulation_result_invariants_witness :
  match run_simulation (small_params "field") demo_tape with
  | Ok (r, _) => (0 <= successes r <= 2)%Z /\ 0 <= success_rate r <= 1
  | Raise _ => False
  end.
Proof.
  destruct (run_simulation (small_params "field") demo_tape)
    as [[r g'] |] eqn:E; [| returned E].
  destruct (run_simulation_result_invariants _ _ _ _ E)
    as (_ & _ & _ & Hk & _ & Hu).
  split; [exact Hk | exact Hu].
Defined.

Lemma run_simulation_negative_trials_witness :
  exists r,
    run_simulation negative_trials_params demo_tape = Ok (r, demo_tape) /\
    success_rate r == 0.
Proof.
  destruct (run_simulation_negative_trials negative_trials_params demo_tape)
    as (r & E & Hs & _).
  - cbn. lia.
  - now exists r.
Defined.

Lemma failed_replication_gate_condemns_run_witness :
  match run_simulation closed_gate_params other_tape with
  | Ok (r, _) => successes r = 0%Z /\ success_rate r == 0
  | Raise _ => False
  end.
Proof.
  destruct (run_trial closed_gate_params demo_tape)
    as [[[s0 m0] g0] |] eqn:E0; [| returned E0].
  destruct (run_simulation closed_gate_params other_tape)
    as [[r g'] |] eqn:E; [| returned E].
  eapply failed_replication_gate_condemns_run; [exact E0 | | exact E].
  vm_compute in E0. apply Ok_injective in E0.
  apply (f_equal (fun x => m_fidelity (snd (fst x)))) in E0.
  cbn [fst snd m_fidelity] in E0. rewrite <- E0. by_computation.
Defined.

Lemma negative_species_fail_mid_trial_witness :
  run_simulation negative_species_params demo_tape = Raise ValueError.
Proof.
  destruct (negative_species_fail_mid_trial negative_species_params demo_tape)
    as (_ & Hs).
  - split; [intro H; discriminate H | reflexivity].
  - apply Hs. cbn. lia.
Defined.

Lemma no_field_internal_period_witness :
  match run_trial (small_params "no_field") demo_tape with
  | Ok ((_, m), _) => 0.05 <= m_T_internal m < 2
  | Raise _ => False
  end.
Proof.
  destruct (run_trial (small_params "no_field") demo_tape)
    as [[[s m] g'] |] eqn:E; [| returned E].
  exact (no_field_internal_period (small_params "no_field") _ _ _ _ eq_refl E).
Defined.

Lemma mode_is_no_field_or_not_witness :
  run_trial (with_mode (small_params "field") "Field") demo_tape =
  run_trial (with_mode (small_params "field") "field") demo_tape.
Proof.
  apply mode_is_no_field_or_not; discriminate.
Defined.

Lemma build_reaction_network_closed_mask_witness :
  exists adj g',
    build_reaction_network 2 0 demo_tape = Ok (adj, g') /\
    length adj = 2%nat /\ Mat.row_sum adj 0 == 0.
Proof.
  destruct (build_reaction_network_closed_mask 2 0 demo_tape)
    as (adj & g' & E & Hl & Hrows).
  - lia.
  - by_computation.
  - exists adj, g'. split; [exact E |]. split; [exact Hl |]. apply Hrows.
Defined.

Lemma evaluate_cycle_coherence_monotone_witness :
  match evaluate_cycle_coherence [[0; 1]; [1; 0]] 1 0.2 0.3,
        evaluate_cycle_coherence [[0; 1]; [1; 0]] 1.5 0.1 0.2 with
  | Ok (c1, _), Ok (c2, _) => c1 <= c2
  | _, _ => False
  end.
Proof.
  destruct (evaluate_cycle_coherence [[0; 1]; [1; 0]] 1 0.2 0.3)
    as [[c1 h1] |] eqn:E1; [| returned E1].
  destruct (evaluate_cycle_coherence [[0; 1]; [1; 0]] 1.5 0.1 0.2)
    as [[c2 h2] |] eqn:E2; [| returned E2].
  refine (proj1 (evaluate_cycle_coherence_monotone [[0; 1]; [1; 0]] 1
                   _ _ _ _ _ _ _ _ _ _ eq_refl _ _ _ _ E1 E2)); by_computation.
Defined.

Lemma field_success_ignores_rhythm_witness :
  match run_simulation (small_params "field") demo_tape,
        run_simulation other_rhythm_params demo_tape with
  | Ok (r1, _), Ok (r2, _) => success_rate r1 = success_rate r2
  | _, _ => False
  end.
Proof.
  destruct (run_trial (small_params "field") other_tape)
    as [[[t1 n1] h1] |] eqn:T1; [| returned T1].
  destruct (run_trial other_rhythm_params other_tape)
    as [[[t2 n2] h2] |] eqn:T2; [| returned T2].
  destruct (run_simulation (small_params "field") demo_tape)
    as [[r1 g1] |] eqn:E1; [| returned E1].
  destruct (run_simulation other_rhythm_params demo_tape)
    as [[r2 g2] |] eqn:E2; [| returned E2].
  assert (Hg1 : 1 - m_fidelity n1 < crit_error_threshold (small_params "field")).
  { pose proof T1 as T1'. vm_compute in T1'. apply Ok_injective in T1'.
    apply (f_equal (fun x => m_fidelity (snd (fst x)))) in T1'.
    cbn [fst snd m_fidelity] in T1'. rewrite <- T1'. by_computation. }
  assert (Hg2 : 1 - m_fidelity n2 < crit_error_threshold other_rhythm_params).
  { pose proof T2 as T2'. vm_compute in T2'. apply Ok_injective in T2'.
    apply (f_equal (fun x => m_fidelity (snd (fst x)))) in T2'.
    cbn [fst snd m_fidelity] in T2'. rewrite <- T2'. by_computation. }
  assert (Hsame : same_chemistry (small_params "field") other_rhythm_params)
    by (repeat split).
  assert (Hm1 : mode (small_params "field") <> "no_field"%string) by discriminate.
  assert (Hm2 : mode other_rhythm_params <> "no_field"%string) by discriminate.
  destruct (field_success_ignores_rhythm
              (small_params "field") other_rhythm_params _ _ _ _ _ _ _ _
              Hsame Hm1 Hm2 T1 Hg1 T2 Hg2) as [_ Hrun].
  exact (proj1 (proj2 (Hrun _ _ _ _ _ E1 E2))).
Defined.

Lemma analyze_eta_effect_rows_witness :
  exists r1 r2 g',
    run_simulation
      (stored (keyword_args "field" 200 None
                 [("f_eta", 0.1); ("noise_level", 0.35);
                  ("energy_grad", 0.7)]%string)) demo_tape = Ok (r1, g') /\
    run_simulation
      (stored (keyword_args "field" 200 None
                 [("f_eta", 0.9); ("noise_level", 0.35);
                  ("energy_grad", 0.7)]%string)) demo_tape = Ok (r2, g') /\
    success_rate r1 = success_rate r2 /\
    mean_cycle_coherence r1 = mean_cycle_coherence r2.
Proof.
  destruct (analyze_eta_effect_rows demo_tape) as [_ Hsame].
  apply Hsame; unfold eta_values; cbn [In]; auto 10.
Defined.

Lemma analyze_periods_rows_witness :
  exists r1 r2 g',
    run_simulation
      (stored (keyword_args "field" 200 (Some [1; 29.5; 365.25])
                 [("noise_level", 0.35)]%string)) demo_tape = Ok (r1, g') /\
    run_simulation
      (stored (keyword_args "field" 200 (Some [1.03; 30.5; 687])
                 [("noise_level", 0.35)]%string)) demo_tape = Ok (r2, g') /\
    success_rate r1 = success_rate r2 /\
    mean_cycle_coherence r1 = mean_cycle_coherence r2.
Proof.
  destruct (analyze_periods_rows demo_tape) as [_ Hsame].
  apply (Hsame ("Earth"%string, [1; 29.5; 365.25]) ("Mars"%string, [1.03; 30.5; 687]));
    unfold period_sets; cbn [In]; auto 10.
Defined.
